(** * redaxios2: a shallow embedding of the request/response pipeline

    Sources embedded here:
    - [src/index.js]: [deepMerge], [mergeConfig], [isCancel], and the
      orchestrator [redaxios] (request building, decoding, classification,
      cancellation);
    - [src/progress.js]: [speedometer], [toAxiosProgress], [withProgress],
      [streamResponse];
    - [src/stream.js]: [createSpeedometer], [progressEvent], [wrapStream],
      [wrapResponseWithProgress].

    JavaScript values are an inductive type; objects are association lists
    kept in [for-in] order; sparse arrays of the speedometer are finite
    maps; promises are modelled by their settlement. *)

From Stdlib Require Import ZArith QArith Qround String Ascii List Bool Lia.
From Stdlib Require Import DecimalString Sorted.
From Stdlib Require DecimalNat DecimalFacts.
From stdpp Require Import base option list gmap strings.

#[local] Set Warnings "-register-all".

Local Open Scope string_scope.
Local Open Scope Z_scope.

(** ** JavaScript values *)

Module JS.

(** Numbers are integers (no claim here depends on fractions held in a
    configuration); a function is known by its name.  Objects are plain:
    their own enumerable string-keyed properties in enumeration order, with
    [Object.prototype] as prototype.  A value carries no prototype of its
    own: an assignment under the accessor key [__proto__], which replaces
    the prototype of the object or does nothing and creates no property, has
    no counterpart here.  The statements on merging are therefore made for
    values without a property of that name ([proto_free] below). *)
Inductive JValue : Type :=
| JUndefined
| JNull
| JBool (b : bool)
| JNum (n : Z)
| JStr (s : string)
| JFun (name : string)
| JArr (items : list JValue)
| JObj (props : list (string * JValue)).

Abbreviation Props := (list (string * JValue)).

(** [typeof v] *)
Definition typeof (v : JValue) : string :=
  match v with
  | JUndefined => "undefined"
  | JNull => "object"
  | JBool _ => "boolean"
  | JNum _ => "number"
  | JStr _ => "string"
  | JFun _ => "function"
  | JArr _ => "object"
  | JObj _ => "object"
  end.

(** ToBoolean *)
Definition truthy (v : JValue) : bool :=
  match v with
  | JUndefined | JNull => false
  | JBool b => b
  | JNum n => negb (n =? 0)
  | JStr s => negb (String.eqb s "")
  | JFun _ | JArr _ | JObj _ => true
  end.

(** [a || b] *)
Definition jor (a b : JValue) : JValue := if truthy a then a else b.

(** [v === 'literal'] *)
Definition is_str (v : JValue) (lit : string) : bool :=
  match v with
  | JStr s => String.eqb s lit
  | _ => false
  end.

(** [String.prototype.toLowerCase] / [toUpperCase] on ASCII code units. *)
Definition lower_ascii (c : ascii) : ascii :=
  let n := nat_of_ascii c in
  if (Nat.leb 65 n && Nat.leb n 90)%bool then ascii_of_nat (n + 32) else c.

Definition upper_ascii (c : ascii) : ascii :=
  let n := nat_of_ascii c in
  if (Nat.leb 97 n && Nat.leb n 122)%bool then ascii_of_nat (n - 32) else c.

Fixpoint map_string (f : ascii -> ascii) (s : string) : string :=
  match s with
  | EmptyString => EmptyString
  | String c s' => String (f c) (map_string f s')
  end.

Definition toLowerCase : string -> string := map_string lower_ascii.
Definition toUpperCase : string -> string := map_string upper_ascii.

(** Decimal rendering of an array index and of an integer. *)
Definition index_key (n : nat) : string :=
  NilZero.string_of_uint (Nat.to_uint n).

Definition string_of_Z (z : Z) : string :=
  NilZero.string_of_int (Z.to_int z).

(** A property key is an array index when it is the canonical decimal
    rendering of an integer below 2^32 - 1; such keys enumerate first, in
    ascending order. *)
Definition array_index (k : string) : option N :=
  match NilZero.uint_of_string k with
  | Some u =>
      let n := N.of_uint u in
      if (String.eqb (NilZero.string_of_uint (N.to_uint n)) k
          && (n <? 4294967295)%N)%bool
      then Some n else None
  | None => None
  end.

(** Own-property lookup. *)
Fixpoint obj_lookup (k : string) (ps : Props) : option JValue :=
  match ps with
  | [] => None
  | (k', v) :: ps' => if String.eqb k' k then Some v else obj_lookup k ps'
  end.

(** Does a new key [k] enumerate before the existing key [k']? *)
Definition enumerates_before (k k' : string) : bool :=
  match array_index k, array_index k' with
  | Some n, Some n' => (n <? n')%N
  | Some _, None => true
  | None, _ => false
  end.

Fixpoint obj_insert_new (k : string) (v : JValue) (ps : Props) : Props :=
  match ps with
  | [] => [(k, v)]
  | (k', v') :: ps' =>
      if enumerates_before k k' then (k, v) :: ps
      else (k', v') :: obj_insert_new k v ps'
  end.

Fixpoint obj_replace (k : string) (v : JValue) (ps : Props) : Props :=
  match ps with
  | [] => []
  | (k', v') :: ps' =>
      if String.eqb k' k then (k', v) :: ps'
      else (k', v') :: obj_replace k v ps'
  end.

(** [out[k] = v] for a data property: an existing property keeps its
    place, a new one is created at its place in the enumeration order.  (For
    [k = "__proto__"] the assignment goes to the accessor of
    [Object.prototype] instead; see [JValue].) *)
Definition obj_set (k : string) (v : JValue) (ps : Props) : Props :=
  match obj_lookup k ps with
  | Some _ => obj_replace k v ps
  | None => obj_insert_new k v ps
  end.

(** Names every plain object inherits from [Object.prototype]. *)
Definition object_prototype_keys : list string :=
  [ "constructor"; "hasOwnProperty"; "isPrototypeOf"; "propertyIsEnumerable";
    "toLocaleString"; "toString"; "valueOf"; "__defineGetter__";
    "__defineSetter__"; "__lookupGetter__"; "__lookupSetter__"; "__proto__" ].

Definition inherited (k : string) : bool :=
  existsb (String.eqb k) object_prototype_keys.

(** [k in out] for a plain object [out]. *)
Definition obj_has (k : string) (ps : Props) : bool :=
  match obj_lookup k ps with
  | Some _ => true
  | None => inherited k
  end.

(** [Object.prototype] as a value: an object without enumerable
    properties. *)
Definition Object_prototype : JValue := JObj [].

(** [out[k]] for a plain object [out]; an inherited name reads as the
    built-in function of [Object.prototype], [__proto__] as the prototype
    itself. *)
Definition obj_get (k : string) (ps : Props) : JValue :=
  match obj_lookup k ps with
  | Some v => v
  | None =>
      if inherited k
      then if String.eqb k "__proto__" then Object_prototype
           else JFun (if String.eqb k "constructor" then "Object" else k)
      else JUndefined
  end.

(** The characters of a string, as one-unit strings. *)
Fixpoint chars (s : string) : list JValue :=
  match s with
  | EmptyString => []
  | String c s' => JStr (String c EmptyString) :: chars s'
  end.

Fixpoint indexed_from (n : nat) (vs : list JValue) : Props :=
  match vs with
  | [] => []
  | v :: vs' => (index_key n, v) :: indexed_from (S n) vs'
  end.

(** The (key, value) pairs a [for (i in v)] loop visits, with [v[i]]. *)
Definition for_in (v : JValue) : Props :=
  match v with
  | JObj ps => ps
  | JArr vs => indexed_from 0 vs
  | JStr s => indexed_from 0 (chars s)
  | _ => []
  end.

(** [v.k] for any value: own properties of objects; [name] of a function;
    nothing on the other values for the names this development reads. *)
Definition prop (v : JValue) (k : string) : JValue :=
  match v with
  | JObj ps => obj_get k ps
  | JFun n => if String.eqb k "name" then JStr n else JUndefined
  | _ => JUndefined
  end.

End JS.

Import JS.

(** ** Config merger ([src/index.js], [deepMerge] and [mergeConfig]) *)

Module Merge.

(** [opts.concat(overrides)]: an array argument is spread, anything else is
    appended as one element. *)
Definition concat (opts : list JValue) (overrides : JValue) : JValue :=
  JArr (opts ++ match overrides with JArr vs => vs | _ => [overrides] end)%list.

(** [lowerCase ? i.toLowerCase() : i] *)
Definition fold_key (lowerCase : bool) (i : string) : string :=
  if lowerCase then toLowerCase i else i.

(** First loop: [for (i in opts) out[key] = opts[i]]. *)
Definition copy_step (lowerCase : bool) (out : Props) (p : string * JValue) : Props :=
  obj_set (fold_key lowerCase (fst p)) (snd p) out.

Definition copy_props (lowerCase : bool) (opts : JValue) : Props :=
  fold_left (copy_step lowerCase) (for_in opts) [].

Definition typeof_object (v : JValue) : bool := String.eqb (typeof v) "object".

(** Body of the second loop, with the recursive call abstracted as [rec]:
    [out[key] = key in out && typeof value == 'object'
                ? deepMerge(out[key], value, key == 'headers') : value]. *)
Definition assign (rec : JValue -> JValue -> bool -> JValue)
    (lowerCase : bool) (out : Props) (i : string) (value : JValue) : Props :=
  let key := fold_key lowerCase i in
  obj_set key
    (if (obj_has key out && typeof_object value)%bool
     then rec (obj_get key out) value (String.eqb key "headers")
     else value)
    out.

(** [deepMerge(opts, overrides, lowerCase)].  The recursion is on
    [overrides]: the recursive call receives one of its property values.
    The characters of a string [overrides] are strings, for which the
    recursive branch is never taken. *)
Fixpoint deepMerge (opts overrides : JValue) (lowerCase : bool) {struct overrides} : JValue :=
  match opts with
  | JArr l => concat l overrides
  | _ =>
      let out := copy_props lowerCase opts in
      match overrides with
      | JObj ps =>
          JObj ((fix loop (ps : Props) (out : Props) : Props :=
                   match ps with
                   | [] => out
                   | (i, value) :: ps' =>
                       loop ps' (assign (fun o v b => deepMerge o v b) lowerCase out i value)
                   end) ps out)
      | JArr vs =>
          JObj ((fix loop (n : nat) (vs : list JValue) (out : Props) : Props :=
                   match vs with
                   | [] => out
                   | value :: vs' =>
                       loop (S n) vs'
                         (assign (fun o v b => deepMerge o v b) lowerCase out (index_key n) value)
                   end) 0%nat vs out)
      | JStr s =>
          JObj (fold_left (fun out p => assign (fun _ v _ => v) lowerCase out (fst p) (snd p))
                  (for_in (JStr s)) out)
      | _ => JObj out
      end
  end.

(** [mergeConfig(config1, config2)] *)
Definition mergeConfig (config1 config2 : JValue) : JValue :=
  deepMerge (jor config1 (JObj [])) (jor config2 (JObj [])) false.

End Merge.

Import Merge.


(** ** Numbers of the progress layer *)

Module Num.

(** [Math.round]: the integer nearest to [x], halves going up. *)
Definition Math_round (x : Q) : Z := Qfloor (x + (1 # 2)).

(** [a / b] on integers, as an exact fraction (the rounding of the
    floating-point quotient is not modelled). *)
Definition div (a b : Z) : Q := (inject_Z a / inject_Z b)%Q.

(** A number that may be [NaN] (what [undefined] turns a sum into). *)
Inductive Numeric : Type :=
| Fin (z : Z)
| NaN.

Definition add (a : Numeric) (b : option Z) : Numeric :=
  match a, b with
  | Fin x, Some y => Fin (x + y)
  | _, _ => NaN
  end.

(** [!x] for [x] a number or [undefined]. *)
Definition falsy (x : option Z) : bool :=
  match x with
  | None => true
  | Some n => n =? 0
  end.

End Num.

Import Num.

(** ** [speedometer] of [src/progress.js] (ring buffer) *)

Module Speedometer.

(** The closure state of [speedometer(samplesCount, min)]: two sparse
    arrays made by [new Array(samplesCount)], the two cursors and the time
    of the first sample. *)
Record State : Type := mkState {
  bytes : gmap nat Z;
  timestamps : gmap nat Z;
  head : nat;
  tail : nat;
  firstSampleTS : option Z
}.

Definition init : State :=
  {| bytes := ∅; timestamps := ∅; head := 0; tail := 0; firstSampleTS := None |}.

(** [while (i !== head) { bytesCount += bytes[i++]; i = i % samplesCount; }]
    The result is [None] when the loop is still running after [fuel] tests
    of its condition. *)
Fixpoint sum_loop (samplesCount : nat) (bytes : gmap nat Z) (head : nat)
    (fuel : nat) (i : nat) (bytesCount : Numeric) : option Numeric :=
  match fuel with
  | O => None
  | S fuel' =>
      if Nat.eqb i head then Some bytesCount
      else sum_loop samplesCount bytes head fuel'
             ((i + 1) mod samplesCount)%nat (add bytesCount (bytes !! i))
  end.

(** What a call of [push] returns. *)
Inductive Rate : Type :=
| Undefined
| Value (n : Z)
| NotANumber.

(** [push(chunkLength)] with [Date.now()] read as [now]: the new state and
    the returned value; [None] when the summing loop does not end within
    [samplesCount] tests. *)
Definition push (samplesCount : nat) (min : Z) (st : State)
    (chunkLength now : Z) : option (State * Rate) :=
  let firstSampleTS := if falsy (firstSampleTS st) then Some now else firstSampleTS st in
  let bytes := <[head st := chunkLength]> (bytes st) in
  let timestamps := <[head st := now]> (timestamps st) in
  match sum_loop samplesCount bytes (head st) samplesCount (tail st) (Fin 0) with
  | None => None
  | Some bytesCount =>
      let head := ((head st + 1) mod samplesCount)%nat in
      let tail := if Nat.eqb head (tail st)
                  then ((tail st + 1) mod samplesCount)%nat else tail st in
      let st' := mkState bytes timestamps head tail firstSampleTS in
      let first := default 0 firstSampleTS in
      if now - first <? min then Some (st', Undefined)
      else
        match timestamps !! tail with
        | None => Some (st', Undefined)
        | Some ts =>
            (* passed = timestamps[tail] && now - timestamps[tail] *)
            let passed := if ts =? 0 then 0 else now - ts in
            if passed =? 0 then Some (st', Undefined)
            else
              match bytesCount with
              | Fin b => Some (st', Value (Math_round (div (b * 1000) passed)))
              | NaN => Some (st', NotANumber)
              end
        end
  end.

(** A run of pushes, each given as (chunk length, time of the call); the
    returned values in order. *)
Fixpoint run (samplesCount : nat) (min : Z) (st : State)
    (pushes : list (Z * Z)) : option (State * list Rate) :=
  match pushes with
  | [] => Some (st, [])
  | (chunkLength, now) :: rest =>
      match push samplesCount min st chunkLength now with
      | None => None
      | Some (st', r) =>
          match run samplesCount min st' rest with
          | None => None
          | Some (st'', rs) => Some (st'', r :: rs)
          end
      end
  end.

End Speedometer.

(** ** [createSpeedometer] of [src/stream.js] (sample list) *)

Module CreateSpeedometer.

(** [samplesBuf]: the retained samples [{ bytes, now }], oldest first. *)
Abbreviation State := (list (Z * Z)).

(** [while (samplesBuf.length > samples) samplesBuf.shift()]; every turn
    shortens the list, so [fuel = length] turns are always enough. *)
Fixpoint shift_while (samples : nat) (fuel : nat) (samplesBuf : State) : State :=
  match fuel with
  | O => samplesBuf
  | S fuel' =>
      if Nat.ltb samples (length samplesBuf)
      then shift_while samples fuel' (List.tl samplesBuf)
      else samplesBuf
  end.

Definition sum_bytes (samplesBuf : State) : Z :=
  fold_left (fun s x => s + fst x) samplesBuf 0.

(** [push(bytes)] of [createSpeedometer(samples, minTime)]: the new buffer
    and the returned value ([None] is [undefined]). *)
Definition push (samples : nat) (minTime : Z) (samplesBuf : State)
    (bytes now : Z) : State * option Z :=
  let pushed := (samplesBuf ++ [(bytes, now)])%list in
  let buf := shift_while samples (length pushed) pushed in
  match List.hd_error buf, last buf with
  | Some first, Some lst =>
      if snd lst - snd first <? minTime then (buf, None)
      else
        let totalBytes := sum_bytes buf in
        let duration := snd lst - snd first in
        if 0 <? duration
        then (buf, Some (Math_round (div (totalBytes * 1000) duration)))
        else (buf, None)
  | _, _ => (buf, None)
  end.

(** Defaults of [createSpeedometer(samples = 10, minTime = 300)]. *)
Definition default_samples : nat := 10.
Definition default_minTime : Z := 300.

End CreateSpeedometer.

(** ** Progress events and stream instrumentation *)

(** A chunk is a [Uint8Array]; only its bytes matter. *)
Abbreviation Chunk := (list Byte.byte).

Definition byteLength (c : Chunk) : Z := Z.of_nat (length c).

(** The axios-style progress event ([AxiosProgressEvent]). *)
Record ProgressEvent : Type := mkEvent {
  loaded : Z;
  total : option Z;
  progress : option Q;
  ev_bytes : Z;
  rate : Speedometer.Rate;
  estimated : option Q;
  upload : bool;
  download : bool;
  lengthComputable : bool
}.

(** [Number.EPSILON] *)
Definition EPSILON : Q := 1 # 4503599627370496.

(** *** [src/progress.js]: [toAxiosProgress] and [withProgress] *)

Module Progress.

(** [toAxiosProgress(loaded, total, bytes, isUpload, speedometerFn)], the
    speedometer being the closure state [sp] read at time [now].  [None]
    only when the speedometer's loop does not end. *)
Definition toAxiosProgress (loaded total bytes : Z) (isUpload : bool)
    (sp : Speedometer.State) (now : Z) : option (Speedometer.State * ProgressEvent) :=
  let lengthComputable := 0 <? total in
  let progress := if lengthComputable then Some (div loaded total) else None in
  '(sp', rate) ← Speedometer.push 10 1000 sp bytes now;
  let estimated :=
    match rate with
    | Speedometer.Value r =>
        if (negb (r =? 0) && negb (total =? 0) && (loaded <=? total))%bool
        then Some (div (total - loaded) r) else None
    | _ => None
    end in
  Some (sp', {| loaded := loaded;
                total := if lengthComputable then Some total else None;
                progress := progress;
                ev_bytes := bytes;
                rate := rate;
                estimated := estimated;
                upload := isUpload;
                download := negb isUpload;
                lengthComputable := lengthComputable |}).

(** The variables closed over by the transform of [withProgress]. *)
Record State : Type := mkState {
  previousChunk : option Chunk;
  transferredBytes : Z;
  _speedometer : Speedometer.State
}.

Definition init : State :=
  {| previousChunk := None; transferredBytes := 0; _speedometer := Speedometer.init |}.

(** [transform(currentChunk, controller)] at time [now]: the new state, the
    chunks enqueued and the events handed to [onProgress]. *)
Definition transform (totalBytes : Z) (isUpload : bool) (st : State)
    (currentChunk : Chunk) (now : Z) : option (State * list Chunk * list ProgressEvent) :=
  let enqueued := [currentChunk] in
  match previousChunk st with
  | Some previous =>
      let transferredBytes := transferredBytes st + byteLength previous in
      let percent := if totalBytes =? 0 then 0%Q else div transferredBytes totalBytes in
      let percent := if Qle_bool 1 percent then (1 - EPSILON)%Q else percent in
      (* [percent] is not used below: the event is built from the counts *)
      '(sp', ev) ← toAxiosProgress transferredBytes totalBytes (byteLength previous)
                     isUpload (_speedometer st) now;
      Some (mkState (Some currentChunk) transferredBytes sp', enqueued, [ev])
  | None =>
      Some (mkState (Some currentChunk) (transferredBytes st) (_speedometer st), enqueued, [])
  end.

(** [flush()] at time [now]. *)
Definition flush (totalBytes : Z) (isUpload : bool) (st : State) (now : Z)
    : option (State * list ProgressEvent) :=
  match previousChunk st with
  | Some previous =>
      let transferredBytes := transferredBytes st + byteLength previous in
      '(sp', ev) ← toAxiosProgress transferredBytes totalBytes (byteLength previous)
                     isUpload (_speedometer st) now;
      Some (mkState (previousChunk st) transferredBytes sp', [ev])
  | None => Some (st, [])
  end.

(** The chunks of the source stream with the time each one reaches the
    transform, then the end of the stream at time [end_time]: the chunks
    that come out, the events of the [transform] calls and the events of
    [flush]. *)
Fixpoint pipe (totalBytes : Z) (isUpload : bool) (st : State)
    (chunks : list (Chunk * Z)) (end_time : Z)
    : option (list Chunk * list ProgressEvent * list ProgressEvent) :=
  match chunks with
  | [] =>
      '(_, flushed) ← flush totalBytes isUpload st end_time;
      Some ([], [], flushed)
  | (c, now) :: rest =>
      '(st', out, evs) ← transform totalBytes isUpload st c now;
      '(outs, evs', flushed) ← pipe totalBytes isUpload st' rest end_time;
      Some ((out ++ outs)%list, (evs ++ evs')%list, flushed)
  end.

End Progress.

(** *** [src/stream.js]: [progressEvent] and [wrapStream] *)

Module Stream.

(** [progressEvent({ loaded, total, bytes, rate, upload })]; [total] may be
    [undefined]. *)
Definition progressEvent (loaded : Z) (total : option Z) (bytes : Z)
    (rate : option Z) (upload : bool) : ProgressEvent :=
  let lengthComputable := match total with Some t => 0 <? t | None => false end in
  {| loaded := loaded;
     total := if lengthComputable then total else None;
     progress := match total with
                 | Some t => if lengthComputable then Some (div loaded t) else None
                 | None => None
                 end;
     ev_bytes := bytes;
     rate := match rate with Some r => Speedometer.Value r | None => Speedometer.Undefined end;
     estimated := match rate, total with
                  | Some r, Some t =>
                      if (negb (r =? 0) && lengthComputable)%bool
                      then Some (div (t - loaded) r) else None
                  | _, _ => None
                  end;
     upload := upload;
     download := negb upload;
     lengthComputable := lengthComputable |}.

(** The variables closed over by the transform of [wrapStream]. *)
Record State : Type := mkState {
  st_loaded : Z;
  speed : CreateSpeedometer.State
}.

Definition init : State := {| st_loaded := 0; speed := [] |}.

(** [transform(chunk, controller)] at time [now]; there is no [flush]. *)
Definition transform (total : option Z) (upload : bool) (st : State)
    (chunk : Chunk) (now : Z) : State * list Chunk * list ProgressEvent :=
  let loaded := st_loaded st + byteLength chunk in
  let '(speed', rate) :=
    CreateSpeedometer.push CreateSpeedometer.default_samples
      CreateSpeedometer.default_minTime (speed st) (byteLength chunk) now in
  (mkState loaded speed', [chunk],
   [progressEvent loaded total (byteLength chunk) rate upload]).

Fixpoint pipe (total : option Z) (upload : bool) (st : State)
    (chunks : list (Chunk * Z)) : list Chunk * list ProgressEvent :=
  match chunks with
  | [] => ([], [])
  | (c, now) :: rest =>
      let '(st', out, evs) := transform total upload st c now in
      let '(outs, evs') := pipe total upload st' rest in
      ((out ++ outs)%list, (evs ++ evs')%list)
  end.

End Stream.

(** ** Platform objects: byte streams, headers, [Response] *)

Module Fetch.

(** How a call that may throw completes. *)
Inductive Completion (A : Type) : Type :=
| Normal (a : A)
| Throw (e : JValue).
Arguments Normal {A} a.
Arguments Throw {A} e.

(** How a promise settles. *)
Inductive Settled (A E : Type) : Type :=
| Resolved (a : A)
| Rejected (e : E).
Arguments Resolved {A E} a.
Arguments Rejected {A E} e.

(** The transforms this repository pipes a stream through: the delayed
    one with a flush ([withProgress] of progress.js) and the immediate one
    ([wrapStream] of stream.js), each with the callback it reports to. *)
Inductive Instrument : Type :=
| WithProgress (totalBytes : Z) (onProgress : JValue) (isUpload : bool)
| WrapStream (total : option Z) (onProgress : JValue) (upload : bool).

(** A [ReadableStream]: the chunks of a source, or [s.pipeThrough(t)]. *)
Inductive ByteStream : Type :=
| Source (chunks : list Chunk)
| PipeThrough (s : ByteStream) (t : Instrument).

(** [Headers]: names are stored lower-cased by the platform. *)
Abbreviation Headers := (list (string * string)).

Fixpoint headers_get (h : Headers) (name : string) : option string :=
  match h with
  | [] => None
  | (n, v) :: h' =>
      if String.eqb (toLowerCase n) (toLowerCase name) then Some v
      else headers_get h' name
  end.

(** The data fields of a fetch [Response] (its methods are calls of the
    environment, see [invoke] below). *)
Record Response : Type := mkResponse {
  status : Z;
  statusText : string;
  headers : option Headers;
  body : option ByteStream;
  ok : bool;
  url : string;
  redirected : bool;
  type : string
}.

Record ResponseInit : Type := mkInit {
  init_status : Z;
  init_statusText : string;
  init_headers : option Headers
}.

Definition null_body_status (s : Z) : bool :=
  existsb (Z.eqb s) [101; 103; 204; 205; 304].

(** [new Response(body, init)]: a [RangeError] for a status outside
    200..599, a [TypeError] for a body given with a null-body status. *)
Definition new_Response (body : option ByteStream) (init : ResponseInit)
    : Completion Response :=
  if ((init_status init <? 200) || (599 <? init_status init))%bool
  then Throw (JObj [("name", JStr "RangeError")])
  else if (match body with Some _ => true | None => false end
           && null_body_status (init_status init))%bool
  then Throw (JObj [("name", JStr "TypeError")])
  else Normal {| status := init_status init;
                 statusText := init_statusText init;
                 headers := Some (default [] (init_headers init));
                 body := body;
                 ok := (200 <=? init_status init) && (init_status init <=? 299);
                 url := "";
                 redirected := false;
                 type := "default" |}.

(** Reading a stream to its end: chunk number [i] reaches each transform
    at time [clock i] and the end of the stream at [clock (length chunks)].
    The result is the chunks read and the events handed to each callback, in
    order; [None] when a speedometer loop does not end. *)
Fixpoint indexed_clock (clock : nat -> Z) (n : nat) (cs : list Chunk) : list (Chunk * Z) :=
  match cs with
  | [] => []
  | c :: cs' => (c, clock n) :: indexed_clock clock (S n) cs'
  end.

Fixpoint consume (clock : nat -> Z) (s : ByteStream)
    : option (list Chunk * list (JValue * ProgressEvent)) :=
  match s with
  | Source chunks => Some (chunks, [])
  | PipeThrough s' t =>
      '(cs, evs) ← consume clock s';
      match t with
      | WithProgress totalBytes onProgress isUpload =>
          '(out, evs1, flushed) ← Progress.pipe totalBytes isUpload Progress.init
                                   (indexed_clock clock 0 cs) (clock (length cs));
          Some (out, (evs ++ map (pair onProgress) (evs1 ++ flushed))%list)
      | WrapStream total onProgress upload =>
          let '(out, evs1) := Stream.pipe total upload Stream.init
                                (indexed_clock clock 0 cs) in
          Some (out, (evs ++ map (pair onProgress) evs1)%list)
      end
  end.

(** The events a reader of [r.body] causes. *)
Definition events_of_body (clock : nat -> Z) (b : option ByteStream)
    : option (list (JValue * ProgressEvent)) :=
  match b with
  | None => Some []
  | Some s => snd <$> consume clock s
  end.

End Fetch.

Import Fetch.

(** ** Response wrappers *)

Section Wrappers.

(** [Number(text)] of the platform, applied to a header value ([None] from
    [get] is [null]); its [None] is [NaN]. *)
Variable Number : option string -> option Z.

(** [Math.max(0, Number(response.headers.get('content-length')) || 0)] on
    the headers of a response that has them. *)
Definition content_length_total (h : Headers) : Z :=
  Z.max 0 (match Number (headers_get h "content-length") with
           | Some n => n
           | None => 0
           end).

(** Reading a property of [undefined]. *)
Definition TypeError_of_undefined : JValue := JObj [("name", JStr "TypeError")].

(** [withProgress(stream, totalBytes, onProgress, isUpload)] of
    progress.js, as an operation on streams. *)
Definition withProgress (stream : option ByteStream) (totalBytes : Z)
    (onProgress : JValue) (isUpload : bool) : option ByteStream :=
  match stream with
  | Some s =>
      if negb (truthy onProgress) then stream
      else Some (PipeThrough s (WithProgress totalBytes onProgress isUpload))
  | None => stream
  end.

(** [streamResponse(response, onDownloadProgress)] of progress.js. *)
Definition streamResponse (response : Response) (onDownloadProgress : JValue)
    : Completion Response :=
  match body response with
  | None => Normal response
  | Some _ =>
      if negb (truthy onDownloadProgress) then Normal response
      else if status response =? 204 then
        new_Response None
          (mkInit (status response) (statusText response) (headers response))
      else
        (* [response.headers.get] throws when the response has no headers *)
        match headers response with
        | None => Throw TypeError_of_undefined
        | Some h =>
            let totalBytes := content_length_total h in
            new_Response (withProgress (body response) totalBytes onDownloadProgress false)
              (mkInit (status response) (statusText response) (headers response))
        end
  end.

(** [wrapStreamWithProgress] at the head of stream.js: the transform of
    [withProgress] without its unused [percent]. *)
Definition wrapStreamWithProgress (stream : option ByteStream) (totalBytes : Z)
    (onProgress : JValue) (isUpload : bool) : option ByteStream :=
  match stream with
  | Some s =>
      if negb (truthy onProgress) then stream
      else Some (PipeThrough s (WithProgress totalBytes onProgress isUpload))
  | None => stream
  end.

(** [wrapResponseWithProgress(response, onDownloadProgress)] at the head of
    stream.js. *)
Definition wrapResponseWithProgress (response : Response) (onDownloadProgress : JValue)
    : Completion Response :=
  match body response with
  | None => Normal response
  | Some _ =>
      if negb (truthy onDownloadProgress) then Normal response
      else if status response =? 204 then
        new_Response None
          (mkInit (status response) (statusText response) (headers response))
      else
        (* [response.headers.get] throws when the response has no headers *)
        match headers response with
        | None => Throw TypeError_of_undefined
        | Some h =>
            let totalBytes := content_length_total h in
            new_Response
              (wrapStreamWithProgress (body response) totalBytes onDownloadProgress false)
              (mkInit (status response) (statusText response) (headers response))
        end
  end.

(** [wrapStream(stream, total, onProgress, upload)] of stream.js, as an
    operation on streams. *)
Definition wrapStream (has_TransformStream : bool) (stream : option ByteStream)
    (total : option Z) (onProgress : JValue) (upload : bool) : option ByteStream :=
  match stream with
  | Some s =>
      if negb (truthy onProgress) then stream
      else if negb has_TransformStream then stream
      else Some (PipeThrough s (WrapStream total onProgress upload))
  | None => stream
  end.

End Wrappers.

(** ** Request orchestrator ([src/index.js], [redaxios]) *)

Module Axios.

(** [baseFetchOptions] *)
Record FetchOptions : Type := mkFetchOptions {
  method : string;
  fo_body : JValue;
  fo_headers : JValue;
  credentials : JValue;
  signal : JValue
}.

(** [response.data]: a decoded value, or the body stream itself. *)
Inductive Data : Type :=
| Val (v : JValue)
| BodyStream (b : option ByteStream).

(** The [Response] of the client: [{ config }], then the non-function
    properties copied from the transport's response, then [data]. *)
Record AxiosResponse : Type := mkAxiosResponse {
  config : JValue;
  copied : Response;
  data : Data
}.

(** The [Proxy] put on [response.headers]: reading a property that is not
    one of the methods is [target.get(prop) || target.get(prop.toLowerCase())]. *)
Definition header_methods : list string :=
  ["get"; "has"; "forEach"; "entries"; "keys"; "values"].

Definition response_header (r : AxiosResponse) (name : string) : option string :=
  match headers (copied r) with
  | Some h =>
      if existsb (String.eqb name) header_methods then None
      else match headers_get h name with
           | Some v => if String.eqb v "" then headers_get h (toLowerCase name) else Some v
           | None => headers_get h (toLowerCase name)
           end
  | None => None
  end.

(** An [Error] object made by the orchestrator. *)
Record AxiosError : Type := mkAxiosError {
  name : string;
  message : string;
  response : option AxiosResponse;
  err_config : option JValue;
  isAxiosError : bool
}.

(** What a call rejects with: a value that came from the transport or
    from a callback, or an [Error] of the orchestrator. *)
Inductive Thrown : Type :=
| Value (e : JValue)
| Error (e : AxiosError).

Definition TypeError : JValue := JObj [("name", JStr "TypeError")].

(** [error && (error.p === lit)] *)
Definition and_prop_is (error : Thrown) (p lit : string) : JValue :=
  match error with
  | Value e => if truthy e then JBool (is_str (prop e p) lit) else e
  | Error e =>
      JBool (if String.eqb p "name" then String.eqb (name e) lit
             else if String.eqb p "message" then String.eqb (message e) lit
             else false)
  end.

(** [redaxios.isCancel] *)
Definition isCancel (error : Thrown) : JValue :=
  jor (and_prop_is error "name" "AbortError")
    (jor (and_prop_is error "code" "ERR_CANCELED")
       (and_prop_is error "message" "canceled")).

(** [redaxios.isAxiosError]:
    [payload && typeof payload === 'object' && payload.isAxiosError === true] *)
Definition isAxiosError_of (payload : Thrown) : JValue :=
  match payload with
  | Value e =>
      if truthy e
      then if typeof_object e
           then JBool (match prop e "isAxiosError" with JBool true => true | _ => false end)
           else JBool false
      else e
  | Error e => JBool (isAxiosError e)
  end.

(** The test of the [catch] handler:
    [(error && error.name === 'AbortError') || (error && error.code === 'ERR_CANCELED')] *)
Definition is_abort (error : Thrown) : bool :=
  truthy (jor (and_prop_is error "name" "AbortError")
            (and_prop_is error "code" "ERR_CANCELED")).

(** [new Error('canceled')] with [name] and [message] set. *)
Definition cancelError : AxiosError :=
  {| name := "AbortError"; message := "canceled";
     response := None; err_config := None; isAxiosError := false |}.

Section Orchestrator.

(** The environment of a call. *)
(** Applying a function value, known by its name, to arguments. *)
Variable call : string -> list JValue -> JValue.
Variable JSON_stringify : JValue -> JValue.
(** [JSON.parse]; [None] when it throws. *)
Variable JSON_parse : string -> option JValue.
(** The XSRF [try] block: the custom headers after it, given the options. *)
Variable xsrf : JValue -> Props -> Props.
(** The [baseURL] and [params] steps on the URL, given the options. *)
Variable resolve_url : JValue -> JValue -> Completion JValue.
(** [typeof Request !== 'undefined'], [typeof ReadableStream !== 'undefined'] *)
Variables has_Request has_ReadableStream : bool.
(** The request descriptor of the platform, and the [try] block that builds
    and instruments one ([None] when it throws). *)
Variable Request : Type.
Variable upload_request : JValue -> FetchOptions -> JValue -> JValue -> option Request.
Variable Number : option string -> option Z.
(** [res[name]()] on a transport response: [None] when [res[name]] is not
    callable, else how the returned promise settles. *)
Variable invoke : Response -> string -> option (Settled JValue JValue).
(** The transport chosen by [options.fetch || fetch], by how the promise it
    returns settles. *)
Variable fetchFunc : JValue -> Request + JValue * FetchOptions -> Settled Response JValue.

(** [data = data || options.data], then the [transformRequest] functions:
    [data = f(data, options.headers) || data]. *)
Fixpoint transform_all (fs : list JValue) (headers data : JValue) : Completion JValue :=
  match fs with
  | [] => Normal data
  | JFun f :: fs' => transform_all fs' headers (jor (call f [data; headers]) data)
  | _ :: _ => Throw TypeError
  end.

Definition transformed_data (options data : JValue) : Completion JValue :=
  let data := jor data (prop options "data") in
  match jor (prop options "transformRequest") (JArr []) with
  | JArr fs => transform_all fs (prop options "headers") data
  | _ => Throw TypeError
  end.

(** The [auth] header, then the JSON encoding of a plain object body with
    its content type. *)
Definition is_function (v : JValue) : bool := String.eqb (typeof v) "function".

Definition encoded (options data : JValue) : JValue * Props :=
  let customHeaders : Props := [] in
  let customHeaders :=
    if truthy (prop options "auth")
    then obj_set "authorization" (prop options "auth") customHeaders
    else customHeaders in
  if (truthy data && typeof_object data
      && negb (is_function (prop data "append"))
      && negb (is_function (prop data "text")))%bool
  then (JSON_stringify data, obj_set "content-type" (JStr "application/json") customHeaders)
  else (data, customHeaders).

(** [(_method || options.method || 'get').toUpperCase()] *)
Definition effective_method (options _method : JValue) : Completion string :=
  match jor _method (jor (prop options "method") (JStr "get")) with
  | JStr m => Normal (toUpperCase m)
  | _ => Throw TypeError
  end.

(** [data && method !== 'GET' && method !== 'HEAD'] *)
Definition hasBody (data : JValue) (method : string) : bool :=
  (truthy data && negb (String.eqb method "GET") && negb (String.eqb method "HEAD"))%bool.

Definition nullish (v : JValue) : bool :=
  match v with
  | JUndefined | JNull => true
  | _ => false
  end.

(** What the orchestrator has when it calls the transport. *)
Record Dispatch : Type := mkDispatch {
  d_config : JValue;
  d_options : JValue;
  d_data : JValue;
  d_method : string;
  d_call : Request + JValue * FetchOptions
}.

(** The body of [redaxios] up to the call of the transport:
    [fetchFunc(request || url, request ? undefined : baseFetchOptions)]. *)
Definition dispatch (defaults urlOrConfig config _method data _undefined : JValue)
    : Completion Dispatch :=
  (* [(config = urlOrConfig).url] throws on [undefined] and [null] *)
  if nullish urlOrConfig then Throw TypeError else
  let config := if String.eqb (typeof urlOrConfig) "string" then config else urlOrConfig in
  let url := if String.eqb (typeof urlOrConfig) "string" then urlOrConfig
             else prop urlOrConfig "url" in
  let options := deepMerge defaults config false in
  match transformed_data options data with
  | Throw e => Throw e
  | Normal data =>
  let '(data, customHeaders) := encoded options data in
  let customHeaders := xsrf options customHeaders in
  match resolve_url options url with
  | Throw e => Throw e
  | Normal url =>
  match effective_method options _method with
  | Throw e => Throw e
  | Normal method =>
  let baseFetchOptions :=
    {| method := method;
       fo_body := data;
       fo_headers := deepMerge (prop options "headers") (JObj customHeaders) true;
       credentials := if truthy (prop options "withCredentials")
                      then JStr "include" else _undefined;
       signal := prop options "signal" |} in
  let request :=
    if (hasBody data method && truthy (prop options "onUploadProgress")
        && has_Request && has_ReadableStream)%bool
    then upload_request url baseFetchOptions (prop options "onUploadProgress") data
    else None in
  Normal (mkDispatch config options data method
            match request with
            | Some r => inl r
            | None => inr (url, baseFetchOptions)
            end)
  end end end.

(** The first [then] handler up to classification. *)
Inductive Assembled : Type :=
| Streamed (r : AxiosResponse)
| Ready (res : Response) (r : AxiosResponse)
| Failed (e : JValue).

(** The decode step: [response.data = data], then the JSON parse of a string
    unless [responseType] is ['text']; a rejected decode is swallowed by
    [.catch(Object)]. *)
Definition decoded_data (options : JValue) (d : Settled JValue JValue) : JValue :=
  match d with
  | Resolved data =>
      match data with
      | JStr s =>
          if negb (is_str (prop options "responseType") "text")
          then match JSON_parse s with
               | Some parsed => parsed
               | None => data
               end
          else data
      | _ => data
      end
  | Rejected _ => JUndefined
  end.

Definition assemble (options config : JValue) (res : Response) : Assembled :=
  match (if (truthy (prop options "onDownloadProgress") && has_ReadableStream)%bool
         then wrapResponseWithProgress Number res (prop options "onDownloadProgress")
         else Normal res) with
  | Throw e => Failed e
  | Normal res =>
      if is_str (prop options "responseType") "stream"
      then Streamed (mkAxiosResponse config res (BodyStream (body res)))
      else
        match jor (prop options "responseType") (JStr "text") with
        | JStr name =>
            match invoke res name with
            | Some d => Ready res (mkAxiosResponse config res (Val (decoded_data options d)))
            | None => Failed TypeError
            end
        | _ => Failed TypeError
        end
  end.

(** [options.validateStatus ? options.validateStatus(res.status) : res.ok] *)
Definition validate (options : JValue) (res : Response) : Completion bool :=
  let validateStatus := prop options "validateStatus" in
  if truthy validateStatus then
    match validateStatus with
    | JFun f => Normal (truthy (call f [JNum (status res)]))
    | _ => Throw TypeError
    end
  else Normal (ok res).

(** The last [then] handler. *)
Definition classify (options : JValue) (res : Response) (response : AxiosResponse)
    : Settled AxiosResponse Thrown :=
  match validate options res with
  | Throw e => Rejected (Value e)
  | Normal true => Resolved response
  | Normal false =>
      Rejected (Error {| name := "Error";
                         message := "Request failed with status code " ++ string_of_Z (status res);
                         response := Some response;
                         err_config := Some options;
                         isAxiosError := true |})
  end.

Definition then_handler (options config : JValue) (res : Response)
    : Settled AxiosResponse Thrown :=
  match assemble options config res with
  | Streamed response => Resolved response
  | Ready res response => classify options res response
  | Failed e => Rejected (Value e)
  end.

(** The [catch] handler.  Reading [error.response] throws on [null] and
    [undefined]; the two remaining branches both reject with [error]. *)
Definition catch_handler (error : Thrown) : Settled AxiosResponse Thrown :=
  if is_abort error then Rejected (Error cancelError)
  else match error with
       | Value JUndefined | Value JNull => Rejected (Value TypeError)
       | _ => Rejected error
       end.

(** How the promise returned by [redaxios] settles, from how the
    transport's promise does. *)
Definition settle (options config : JValue) (t : Settled Response JValue)
    : Settled AxiosResponse Thrown :=
  match t with
  | Resolved res =>
      match then_handler options config res with
      | Resolved response => Resolved response
      | Rejected error => catch_handler error
      end
  | Rejected e => catch_handler (Value e)
  end.

(** [redaxios(urlOrConfig, config, _method, data, _undefined)] *)
Definition redaxios (defaults urlOrConfig config _method data _undefined : JValue)
    : Completion (Settled AxiosResponse Thrown) :=
  match dispatch (jor defaults (JObj [])) urlOrConfig config _method data _undefined with
  | Throw e => Throw e
  | Normal d =>
      Normal (settle (d_options d) (d_config d)
                (fetchFunc (prop (d_options d) "fetch") (d_call d)))
  end.

(** The verb shortcuts. *)
Definition get (defaults url config : JValue) :=
  redaxios defaults url config (JStr "get") JUndefined JUndefined.
Definition head (defaults url config : JValue) :=
  redaxios defaults url config (JStr "head") JUndefined JUndefined.
Definition post (defaults url data config : JValue) :=
  redaxios defaults url config (JStr "post") data JUndefined.
Definition delete (defaults url config : JValue) :=
  redaxios defaults url config (JStr "delete") JUndefined JUndefined.
Definition options (defaults url config : JValue) :=
  redaxios defaults url config (JStr "options") JUndefined JUndefined.
Definition put (defaults url data config : JValue) :=
  redaxios defaults url config (JStr "put") data JUndefined.
Definition patch (defaults url data config : JValue) :=
  redaxios defaults url config (JStr "patch") data JUndefined.

End Orchestrator.

End Axios.

(** ** Reference definitions used in the statements *)

(** The value written last under key [k] by a loop that assigns every
    property of [ps], in order, under its (possibly lower-cased) name. *)
Fixpoint last_writer (lowerCase : bool) (k : string) (ps : Props) : option JValue :=
  match ps with
  | [] => None
  | (i, v) :: ps' =>
      match last_writer lowerCase k ps' with
      | Some w => Some w
      | None => if String.eqb (fold_key lowerCase i) k then Some v else None
      end
  end.

(** The first property of [ps] whose (possibly lower-cased) name is [k]. *)
Fixpoint find_key (lowerCase : bool) (k : string) (ps : Props) : option JValue :=
  match ps with
  | [] => None
  | (i, v) :: ps' =>
      if String.eqb (fold_key lowerCase i) k then Some v
      else find_key lowerCase k ps'
  end.

(** The second loop of [deepMerge], one property at a time. *)
Definition merge_step (lowerCase : bool) (out : Props) (p : string * JValue) : Props :=
  assign deepMerge lowerCase out (fst p) (snd p).

(** The properties of an object value. *)
Definition props_of (v : JValue) : Props :=
  match v with
  | JObj ps => ps
  | _ => []
  end.

(** [v[k]] on a merged configuration. *)
Definition get_key (v : JValue) (k : string) : option JValue :=
  obj_lookup k (props_of v).

(** No property of [v], at any depth, is named [__proto__], in any letter
    case (the merger may lower-case the names it assigns under).  On such
    values every assignment [out[key] = value] of the merger creates or
    replaces a data property. *)
Fixpoint proto_free (v : JValue) : bool :=
  match v with
  | JObj ps =>
      forallb (fun p => let '(i, value) := p in
                        negb (String.eqb (toLowerCase i) "__proto__") && proto_free value)
        ps
  | JArr items => forallb proto_free items
  | _ => true
  end.

(** The samples pushed so far are kept as (bytes, time), oldest first. *)
Abbreviation Samples := (list (Z * Z)).

(** The last [m] samples. *)
Definition window (m : nat) (l : Samples) : Samples := drop (length l - m) l.

Definition bytes_sum (l : Samples) : Z := foldr (fun x s => fst x + s) 0 l.

(** The time of the oldest sample of [l] ([d] when there is none). *)
Definition oldest_ts (l : Samples) (d : Z) : Z :=
  match l with
  | [] => d
  | x :: _ => snd x
  end.

(** What a push of the ring-buffer speedometer returns, in terms of the
    samples [h] pushed before it: the bytes of the last [samplesCount - 1]
    of them over the time since the oldest of the last [samplesCount - 1]
    samples counting the new one. *)
Definition ring_rate (samplesCount : nat) (min : Z) (h : Samples)
    (chunkLength now : Z) : Speedometer.Rate :=
  let h' := (h ++ [(chunkLength, now)])%list in
  if now - oldest_ts h' now <? min then Speedometer.Undefined
  else
    let bytesCount := bytes_sum (window (samplesCount - 1) h) in
    let passed := now - oldest_ts (window (samplesCount - 1) h') now in
    if passed =? 0 then Speedometer.Undefined
    else Speedometer.Value (Math_round (div (bytesCount * 1000) passed)).

Fixpoint ring_rates (samplesCount : nat) (min : Z) (h pushes : Samples)
    : list Speedometer.Rate :=
  match pushes with
  | [] => []
  | (chunkLength, now) :: rest =>
      ring_rate samplesCount min h chunkLength now
      :: ring_rates samplesCount min (h ++ [(chunkLength, now)])%list rest
  end.

(** What a push of the list speedometer returns: the bytes of the last
    [samples] samples, the new one counted, over the time they span. *)
Definition list_rate (samples : nat) (minTime : Z) (h : Samples)
    (bytes now : Z) : option Z :=
  let w := window samples (h ++ [(bytes, now)])%list in
  match w with
  | [] => None
  | _ :: _ =>
      let span := now - oldest_ts w now in
      if span <? minTime then None
      else if 0 <? span
           then Some (Math_round (div (bytes_sum w * 1000) span))
           else None
  end.

(** The rate as the specification words it: the bytes of all retained
    samples (the last [samplesCount], the new one counted) over the time
    since the oldest retained one, [undefined] while fewer than [min]
    milliseconds have passed since the first sample or when that time is
    zero. *)
Definition claimed_rate (samplesCount : nat) (min : Z) (h : Samples)
    (chunkLength now : Z) : Speedometer.Rate :=
  let all := (h ++ [(chunkLength, now)])%list in
  let retained := window samplesCount all in
  let totalBytes := bytes_sum retained in
  let elapsedMs := now - oldest_ts retained now in
  if now - oldest_ts all now <? min then Speedometer.Undefined
  else if elapsedMs =? 0 then Speedometer.Undefined
  else Speedometer.Value (Math_round (div (totalBytes * 1000) elapsedMs)).

(** The ring after the samples [h]: cursor positions, the slots of the last
    [samplesCount] samples, and the time of the first one. *)
Record ring_inv (samplesCount : nat) (h : Samples) (st : Speedometer.State) : Prop := {
  inv_head : Speedometer.head st = (length h mod samplesCount)%nat;
  inv_tail : Speedometer.tail st = ((length h - (samplesCount - 1)) mod samplesCount)%nat;
  inv_slots : forall j b t,
      h !! j = Some (b, t) -> (length h <= j + samplesCount)%nat ->
      Speedometer.bytes st !! (j mod samplesCount)%nat = Some b /\
      Speedometer.timestamps st !! (j mod samplesCount)%nat = Some t;
  inv_first : Speedometer.firstSampleTS st = snd <$> head h;
  inv_nonzero : Forall (fun p => snd p <> 0) h
}.

(** A chunk of [n] bytes. *)
Definition chunk_of (n : nat) : Chunk := repeat Byte.x00 n.

(** Bytes of the chunk the transform holds back. *)
Definition pending (st : Progress.State) : Z :=
  match Progress.previousChunk st with
  | Some p => byteLength p
  | None => 0
  end.

Definition bytes_of (chunks : list (Chunk * Z)) : Z :=
  foldr (fun c s => byteLength (fst c) + s) 0 chunks.

(** The ratio an event carries is the plain quotient of its counts. *)
Definition plain_ratio (totalBytes : Z) (ev : ProgressEvent) : Prop :=
  progress ev = if 0 <? totalBytes then Some (div (loaded ev) totalBytes) else None.

(** ** A concrete environment, for the examples *)

Module Demo.

(** No function is called to any effect, the cookie store is empty, the
    URL is left as it is. *)
Definition call (f : string) (args : list JValue) : JValue := JUndefined.
Definition xsrf (options : JValue) (customHeaders : Props) : Props := customHeaders.
Definition resolve_url (options url : JValue) : Completion JValue := Normal url.
Definition upload_request (url : JValue) (init : Axios.FetchOptions)
    (onUploadProgress data : JValue) : option unit := Some tt.
Definition Number (text : option string) : option Z := None.

(** The fixture of the test suite, [{"hello":"world"}], and a [JSON.parse]
    and [JSON.stringify] that know it. *)
Definition quote : string := String "034"%char EmptyString.
Definition jsonExample : string :=
  "{" ++ quote ++ "hello" ++ quote ++ ":" ++ quote ++ "world" ++ quote ++ "}".
Definition hello_world : JValue := JObj [("hello", JStr "world")].
Definition JSON_parse (s : string) : option JValue :=
  if String.eqb s jsonExample then Some hello_world else None.
Definition JSON_stringify (v : JValue) : JValue := JStr jsonExample.

(** A transport response whose [text()] resolves with [content]. *)
Definition invoke_text (content : string) (res : Response) (name : string)
    : option (Settled JValue JValue) :=
  if String.eqb name "text" then Some (Resolved (JStr content)) else None.

Definition response_of (status : Z) (ok : bool) : Response :=
  {| status := status; statusText := ""; headers := Some [];
     body := None; ok := ok; url := "/items"; redirected := false;
     type := "basic" |}.

(** A transport response whose decode methods all reject, and an
    environment whose functions all return [true]. *)
Definition invoke_rejecting (res : Response) (name : string)
    : option (Settled JValue JValue) :=
  Some (Rejected (JStr "SyntaxError")).

End Demo.

(** ** Further reference definitions *)

(** A map all of whose values are scalars (not of type object). *)
Definition flat (ps : Props) : Prop := Forall (fun p => typeof_object p.2 = false) ps.

(** What an event tells about the transfer, its rate and estimate left
    aside. *)
Definition counts (ev : ProgressEvent)
    : Z * Z * option Z * option Q * bool * bool * bool :=
  (loaded ev, ev_bytes ev, total ev, progress ev, upload ev, download ev,
   lengthComputable ev).

(** One entry per chunk length: the running total, the chunk length, and
    the total and ratio when the total [t] is positive. *)
Fixpoint expected_counts (t : Z) (up : bool) (acc : Z) (lens : list Z)
    : list (Z * Z * option Z * option Q * bool * bool * bool) :=
  match lens with
  | [] => []
  | x :: xs =>
      (acc + x, x, (if 0 <? t then Some t else None),
       (if 0 <? t then Some (div (acc + x) t) else None), up, negb up, 0 <? t)
      :: expected_counts t up (acc + x) xs
  end.

(** The chunks at the source of a stream. *)
Fixpoint source_chunks (s : ByteStream) : list Chunk :=
  match s with
  | Source cs => cs
  | PipeThrough s' _ => source_chunks s'
  end.

(** The length of the chunk the delayed transform holds back, if any. *)
Definition pending_lens (st : Progress.State) : list Z :=
  match Progress.previousChunk st with
  | Some p => [byteLength p]
  | None => []
  end.


(** The ratio of a [counts] entry is defined and lies between 0 and 1. *)
Definition in_unit (c : Z * Z * option Z * option Q * bool * bool * bool) : Prop :=
  let '(_, _, _, p, _, _, _) := c in
  exists q, p = Some q /\ (0 <= q)%Q /\ (q <= 1)%Q.

Definition sum_list (lens : list Z) : Z := foldr Z.add 0 lens.

(** A run of pushes on the list speedometer, each given as (bytes, time of
    the call): the buffer left and the returned values in order. *)
Fixpoint list_run (samples : nat) (minTime : Z) (samplesBuf : CreateSpeedometer.State)
    (pushes : Samples) : CreateSpeedometer.State * list (option Z) :=
  match pushes with
  | [] => (samplesBuf, [])
  | (bytes, now) :: rest =>
      let '(buf, r) := CreateSpeedometer.push samples minTime samplesBuf bytes now in
      let '(buf', rs) := list_run samples minTime buf rest in
      (buf', r :: rs)
  end.

(** A returned rate that is a number and not negative, or [undefined]. *)
Definition rate_ok (r : Speedometer.Rate) : Prop :=
  match r with
  | Speedometer.Undefined => True
  | Speedometer.Value n => 0 <= n
  | Speedometer.NotANumber => False
  end.

(** The values a run of pushes on the list speedometer returns, in terms
    of the samples [h] pushed before it. *)
Fixpoint list_rates (samples : nat) (minTime : Z) (h pushes : Samples)
    : list (option Z) :=
  match pushes with
  | [] => []
  | (bytes, now) :: rest =>
      list_rate samples minTime h bytes now
      :: list_rates samples minTime (h ++ [(bytes, now)])%list rest
  end.

(** The names [Headers.get] accepts (it throws on any other): non-empty
    strings of token characters. *)
Definition tchar (c : ascii) : bool :=
  let n := nat_of_ascii c in
  (existsb (Ascii.eqb c) (list_ascii_of_string "!#$%&'*+-.^_`|~")
   || (Nat.leb 48 n && Nat.leb n 57)
   || (Nat.leb 65 n && Nat.leb n 90)
   || (Nat.leb 97 n && Nat.leb n 122))%bool.

Definition valid_header_name (s : string) : bool :=
  (negb (String.eqb s "") && forallb tchar (list_ascii_of_string s))%bool.

(** * Properties *)

(** ** Objects: lookup after assignment, keys *)

Section ObjectFacts.

Implicit Types (k i : string) (v : JValue) (ps out : Props).

Ltac eqb_cases :=
  repeat match goal with
  | |- context [String.eqb ?a ?b] =>
      destruct (String.eqb_spec a b); subst; simpl; try congruence
  end.

Lemma obj_lookup_None_keys k ps : obj_lookup k ps = None <-> k ∉ ps.*1.
Proof.
  induction ps as [|[k' v'] ps IH]; simpl.
  - split; [intros _; apply not_elem_of_nil | done].
  - rewrite not_elem_of_cons. destruct (String.eqb_spec k' k) as [->|Hne].
    + split; [done | by intros [? _]].
    + rewrite IH. split; [by intros ?; split; [congruence|] | by intros [_ ?]].
Qed.

Lemma obj_lookup_replace k k' v ps :
  obj_lookup k' (obj_replace k v ps) =
  if String.eqb k k' then (fun _ => v) <$> obj_lookup k ps else obj_lookup k' ps.
Proof.
  induction ps as [|[k1 v1] ps IH]; simpl.
  - by destruct (String.eqb k k').
  - destruct (String.eqb_spec k1 k) as [->|Hne]; simpl.
    + eqb_cases.
    + rewrite IH. eqb_cases.
Qed.

Lemma obj_lookup_insert_new k k' v ps :
  obj_lookup k ps = None ->
  obj_lookup k' (obj_insert_new k v ps) =
  if String.eqb k k' then Some v else obj_lookup k' ps.
Proof.
  induction ps as [|[k1 v1] ps IH]; simpl; [done|].
  destruct (String.eqb_spec k1 k) as [->|Hne]; [done|]. intros Hk.
  destruct (enumerates_before k k1); simpl; [done|].
  rewrite (IH Hk). eqb_cases.
Qed.

(** Reading back after [out[k] = v]. *)
Lemma obj_lookup_set k k' v ps :
  obj_lookup k' (obj_set k v ps) =
  if String.eqb k k' then Some v else obj_lookup k' ps.
Proof.
  unfold obj_set. destruct (obj_lookup k ps) as [w|] eqn:Hk.
  - rewrite obj_lookup_replace, Hk. done.
  - by apply obj_lookup_insert_new.
Qed.

Lemma obj_lookup_set_eq k v ps : obj_lookup k (obj_set k v ps) = Some v.
Proof. by rewrite obj_lookup_set, String.eqb_refl. Qed.

Lemma obj_lookup_set_ne k k' v ps :
  k <> k' -> obj_lookup k' (obj_set k v ps) = obj_lookup k' ps.
Proof. intros H. by rewrite obj_lookup_set, (proj2 (String.eqb_neq _ _) H). Qed.

Lemma keys_obj_replace k v ps : (obj_replace k v ps).*1 = ps.*1.
Proof.
  induction ps as [|[k1 v1] ps IH]; csimpl; [done|].
  destruct (String.eqb k1 k); csimpl; [done | by rewrite IH].
Qed.

Lemma keys_obj_insert_new k v ps : (obj_insert_new k v ps).*1 ≡ₚ k :: ps.*1.
Proof.
  induction ps as [|[k1 v1] ps IH]; csimpl; [done|].
  destruct (enumerates_before k k1); csimpl; [done|].
  rewrite IH. apply Permutation_swap.
Qed.

(** Assignment keeps the keys of an object distinct. *)
Lemma NoDup_keys_obj_set k v ps : NoDup ps.*1 -> NoDup (obj_set k v ps).*1.
Proof.
  intros Hnd. unfold obj_set. destruct (obj_lookup k ps) eqn:Hk.
  - by rewrite keys_obj_replace.
  - rewrite keys_obj_insert_new. apply NoDup_cons. split; [|done].
    by apply obj_lookup_None_keys.
Qed.

Lemma elem_of_keys_obj_set k k' v ps :
  k' ∈ (obj_set k v ps).*1 <-> k' = k \/ k' ∈ ps.*1.
Proof.
  unfold obj_set. destruct (obj_lookup k ps) eqn:Hk.
  - rewrite keys_obj_replace. split; [by right|]. intros [->|]; [|done].
    destruct (decide (k ∈ ps.*1)) as [|Hn]; [done|].
    apply obj_lookup_None_keys in Hn. congruence.
  - rewrite keys_obj_insert_new. apply elem_of_cons.
Qed.

Lemma obj_has_set k k' v ps :
  obj_has k' (obj_set k v ps) = (String.eqb k k' || obj_has k' ps)%bool.
Proof.
  unfold obj_has. rewrite obj_lookup_set.
  destruct (String.eqb k k'); [done|]. by destruct (obj_lookup k' ps).
Qed.

Lemma obj_lookup_NoDup_elem k v ps :
  NoDup ps.*1 -> (k, v) ∈ ps -> obj_lookup k ps = Some v.
Proof.
  induction ps as [|[k1 v1] ps IH]; simpl; intros Hnd Hin.
  - by apply elem_of_nil in Hin.
  - apply NoDup_cons in Hnd as [Hk1 Hnd]. apply elem_of_cons in Hin as [Heq|Hin].
    + injection Heq as <- <-. by rewrite String.eqb_refl.
    + destruct (String.eqb_spec k1 k) as [->|Hne]; [|by apply IH].
      exfalso. apply Hk1. apply list_elem_of_fmap. by exists (k, v).
Qed.

End ObjectFacts.

(** ** Config merger *)

Section MergeFacts.

Implicit Types (k i : string) (v : JValue) (ps out a : Props) (lc : bool).

Lemma merge_loop_obj lc ps out :
  (fix loop (ps : Props) (out : Props) {struct ps} : Props :=
     match ps with
     | [] => out
     | (i, value) :: ps' =>
         loop ps' (assign (fun o v b => deepMerge o v b) lc out i value)
     end) ps out
  = fold_left (merge_step lc) ps out.
Proof.
  revert out. induction ps as [|[i v] ps IH]; intros out; simpl; [done|].
  by rewrite IH.
Qed.

Lemma merge_loop_arr lc vs n out :
  (fix loop (n : nat) (vs : list JValue) (out : Props) {struct vs} : Props :=
     match vs with
     | [] => out
     | value :: vs' =>
         loop (S n) vs'
           (assign (fun o v b => deepMerge o v b) lc out (index_key n) value)
     end) n vs out
  = fold_left (merge_step lc) (indexed_from n vs) out.
Proof.
  revert n out. induction vs as [|v vs IH]; intros n out; simpl; [done|].
  by rewrite IH.
Qed.

Lemma merge_loop_str lc s n out :
  fold_left (fun out p => assign (fun _ v _ => v) lc out (fst p) (snd p))
    (indexed_from n (chars s)) out
  = fold_left (merge_step lc) (indexed_from n (chars s)) out.
Proof.
  revert n out. induction s as [|c s IH]; intros n out; simpl; [done|].
  rewrite IH. f_equal. unfold merge_step, assign. simpl.
  by rewrite andb_false_r.
Qed.

(** [deepMerge] as its two loops over the enumerated properties. *)
Lemma deepMerge_eq opts overrides lc :
  deepMerge opts overrides lc =
  match opts with
  | JArr l => concat l overrides
  | _ => JObj (fold_left (merge_step lc) (for_in overrides) (copy_props lc opts))
  end.
Proof.
  destruct opts; try reflexivity;
    destruct overrides; simpl; try reflexivity;
    first [ by rewrite merge_loop_obj
          | by rewrite merge_loop_arr
          | by rewrite <- merge_loop_str ].
Qed.

(** A property whose value is not of type object is assigned as it is. *)
Lemma merge_step_scalar lc out i v :
  typeof_object v = false -> merge_step lc out (i, v) = copy_step lc out (i, v).
Proof.
  intros Hv. unfold merge_step, assign, copy_step. simpl.
  by rewrite Hv, andb_false_r.
Qed.

(** The first loop: each key ends with the value written last. *)
Lemma lookup_copy_loop lc k ps out :
  obj_lookup k (fold_left (copy_step lc) ps out) =
  match last_writer lc k ps with
  | Some v => Some v
  | None => obj_lookup k out
  end.
Proof.
  revert out. induction ps as [|[i v] ps IH]; intros out; simpl; [done|].
  rewrite IH. destruct (last_writer lc k ps); [done|].
  unfold copy_step. simpl. rewrite obj_lookup_set.
  by destruct (String.eqb (fold_key lc i) k).
Qed.

Lemma last_writer_find lc k ps :
  NoDup (fold_key lc <$> ps.*1) -> last_writer lc k ps = find_key lc k ps.
Proof.
  induction ps as [|[i v] ps IH]; csimpl; [done|].
  intros Hnd. apply NoDup_cons in Hnd as [Hi Hnd]. rewrite (IH Hnd).
  destruct (String.eqb_spec (fold_key lc i) k) as [<-|Hne]; [|by destruct (find_key lc k ps)].
  destruct (find_key lc (fold_key lc i) ps) eqn:Hf; [|done].
  exfalso. apply Hi. clear -Hf. induction ps as [|[i' v'] ps IH]; simpl in *; [done|].
  csimpl. destruct (String.eqb_spec (fold_key lc i') (fold_key lc i)) as [->|Hne].
  - left.
  - right. by apply IH.
Qed.

Lemma find_key_false k ps : find_key false k ps = obj_lookup k ps.
Proof. induction ps as [|[i v] ps IH]; simpl; [done|]. by rewrite IH. Qed.

Lemma fold_key_false_keys ps : fold_key false <$> ps.*1 = ps.*1.
Proof. induction ps as [|[i v] ps IH]; csimpl; [done|]. by rewrite IH. Qed.

(** Without case folding the copy of an object reads like the object. *)
Lemma lookup_copy_props_false k a :
  NoDup a.*1 -> obj_lookup k (copy_props false (JObj a)) = obj_lookup k a.
Proof.
  intros Hnd. unfold copy_props. simpl. rewrite lookup_copy_loop.
  rewrite last_writer_find by (by rewrite fold_key_false_keys).
  rewrite find_key_false. by destruct (obj_lookup k a).
Qed.

Lemma lookup_merge_step lc out i v k :
  obj_lookup k (merge_step lc out (i, v)) =
  if String.eqb (fold_key lc i) k
  then Some (if (obj_has (fold_key lc i) out && typeof_object v)%bool
             then deepMerge (obj_get (fold_key lc i) out) v
                    (String.eqb (fold_key lc i) "headers")
             else v)
  else obj_lookup k out.
Proof. unfold merge_step, assign. simpl. apply obj_lookup_set. Qed.

Lemma find_key_None_keys lc k ps :
  k ∉ fold_key lc <$> ps.*1 -> find_key lc k ps = None.
Proof.
  induction ps as [|[i v] ps IH]; csimpl; [done|].
  rewrite not_elem_of_cons. intros [Hne Hk].
  rewrite (proj2 (String.eqb_neq _ _)) by congruence. by apply IH.
Qed.

(** The second loop, when the (folded) names of the overrides are distinct:
    a key of the overrides holds the recursive merge or the incoming value,
    any other key keeps what the first loop gave it. *)
Lemma lookup_merge_loop lc k (b : Props) out :
  NoDup (fold_key lc <$> b.*1) ->
  obj_lookup k (fold_left (merge_step lc) b out) =
  match find_key lc k b with
  | Some v =>
      Some (if (obj_has k out && typeof_object v)%bool
            then deepMerge (obj_get k out) v (String.eqb k "headers")
            else v)
  | None => obj_lookup k out
  end.
Proof.
  revert out. induction b as [|[i v] b IH]; intros out; csimpl; [done|].
  intros Hnd. apply NoDup_cons in Hnd as [Hi Hnd]. rewrite (IH _ Hnd).
  unfold obj_has, obj_get. rewrite lookup_merge_step.
  destruct (String.eqb_spec (fold_key lc i) k) as [<-|Hne].
  - by rewrite find_key_None_keys.
  - by destruct (find_key lc k b).
Qed.

End MergeFacts.

Section MergeMoreFacts.

Implicit Types (k i : string) (v : JValue) (ps out a : Props) (lc : bool).

Lemma lower_ascii_idem c : lower_ascii (lower_ascii c) = lower_ascii c.
Proof. by destruct c as [[] [] [] [] [] [] [] []]. Qed.

Lemma toLowerCase_idem s : toLowerCase (toLowerCase s) = toLowerCase s.
Proof.
  unfold toLowerCase. induction s as [|c s IH]; simpl; [done|].
  by rewrite lower_ascii_idem, IH.
Qed.

Lemma last_writer_app lc k ps ps' :
  last_writer lc k (ps ++ ps') =
  match last_writer lc k ps' with
  | Some v => Some v
  | None => last_writer lc k ps
  end.
Proof.
  induction ps as [|[i v] ps IH]; simpl.
  - by destruct (last_writer lc k ps').
  - rewrite IH. by destruct (last_writer lc k ps').
Qed.

(** The keys after the first loop are (folded) keys of its input. *)
Lemma keys_copy_loop lc ps out k :
  k ∈ (fold_left (copy_step lc) ps out).*1 ->
  k ∈ out.*1 \/ exists i, i ∈ ps.*1 /\ k = fold_key lc i.
Proof.
  revert out. induction ps as [|[i v] ps IH]; intros out; csimpl; [by left|].
  intros Hk. destruct (IH _ Hk) as [Hin|(i' & Hi' & ->)].
  - unfold copy_step in Hin. simpl in Hin.
    apply elem_of_keys_obj_set in Hin as [->|Hin]; [|by left].
    right. exists i. split; [left|done].
  - right. exists i'. split; [by right|done].
Qed.

Lemma NoDup_copy_loop lc ps out :
  NoDup out.*1 -> NoDup (fold_left (copy_step lc) ps out).*1.
Proof.
  revert out. induction ps as [|[i v] ps IH]; intros out Hnd; simpl; [done|].
  apply IH. by apply NoDup_keys_obj_set.
Qed.

Lemma merge_loop_flat lc ps out :
  Forall (fun p => typeof_object p.2 = false) ps ->
  fold_left (merge_step lc) ps out = fold_left (copy_step lc) ps out.
Proof.
  revert out. induction ps as [|[i v] ps IH]; intros out Hf; simpl; [done|].
  apply Forall_cons in Hf as [Hv Hf]. rewrite merge_step_scalar by done.
  by apply IH.
Qed.

(** Merging flat maps is one run of assignments over both. *)
Lemma deepMerge_flat lc a (b : Props) :
  Forall (fun p => typeof_object p.2 = false) b ->
  deepMerge (JObj a) (JObj b) lc = JObj (fold_left (copy_step lc) (a ++ b) []).
Proof.
  intros Hf. rewrite deepMerge_eq. simpl. rewrite merge_loop_flat by done.
  unfold copy_props. simpl. by rewrite fold_left_app.
Qed.

Lemma copy_loop_nonempty lc ps out :
  out <> [] \/ ps <> [] -> fold_left (copy_step lc) ps out <> [].
Proof.
  revert out. induction ps as [|[i v] ps IH]; intros out H; simpl.
  - by destruct H.
  - apply IH. left. unfold copy_step, obj_set. simpl.
    destruct (obj_lookup _ out) eqn:Hl.
    + destruct out as [|[k1 v1] out]; [done|]. simpl.
      by destruct (String.eqb k1 _).
    + destruct out as [|[k1 v1] out]; [done|]. simpl.
      by destruct (enumerates_before _ k1).
Qed.

(** A value without enumerable properties is copied to the empty object. *)
Lemma deepMerge_null_of_scalar opts lc :
  for_in opts = [] -> (forall l, opts <> JArr l) ->
  deepMerge opts JNull lc = JObj [].
Proof.
  intros Hin Harr. rewrite deepMerge_eq.
  destruct opts; try (by unfold copy_props; rewrite Hin).
  by destruct (Harr items).
Qed.

End MergeMoreFacts.

(** ** Array indices as keys *)

Section IndexKeys.

Lemma to_uint_nonnil (n : nat) : Nat.to_uint n <> Decimal.Nil.
Proof.
  rewrite <- (DecimalNat.Unsigned.of_to n) at 1. rewrite DecimalNat.Unsigned.to_of.
  apply DecimalFacts.unorm_nonnil.
Qed.

Lemma index_key_inj (i j : nat) : index_key i = index_key j -> i = j.
Proof.
  unfold index_key. intros H. apply DecimalNat.Unsigned.to_uint_inj.
  apply (f_equal NilZero.uint_of_string) in H.
  rewrite !NilZero.usu in H by apply to_uint_nonnil. by injection H.
Qed.

Lemma lower_digits (d : Decimal.uint) :
  toLowerCase (NilEmpty.string_of_uint d) = NilEmpty.string_of_uint d.
Proof.
  unfold toLowerCase. induction d; simpl; [done|..]; by rewrite IHd.
Qed.

Lemma toLowerCase_index_key (n : nat) : toLowerCase (index_key n) = index_key n.
Proof.
  unfold index_key, NilZero.string_of_uint.
  destruct (Nat.to_uint n); [done|..]; apply lower_digits.
Qed.

Lemma fold_key_index_key lc (n : nat) : fold_key lc (index_key n) = index_key n.
Proof. destruct lc; [apply toLowerCase_index_key | done]. Qed.

Lemma keys_indexed_from (n : nat) (vs : list JValue) :
  (indexed_from n vs).*1 = index_key <$> seq n (length vs).
Proof. revert n. induction vs as [|v vs IH]; intros n; csimpl; [done|]. by rewrite IH. Qed.

Lemma NoDup_indexed_from lc (n : nat) (vs : list JValue) :
  NoDup (fold_key lc <$> (indexed_from n vs).*1).
Proof.
  rewrite keys_indexed_from, <- list_fmap_compose.
  apply NoDup_fmap_2_strong; [|apply NoDup_seq].
  intros i j _ _. simpl. rewrite !fold_key_index_key. apply index_key_inj.
Qed.

Lemma find_key_indexed_from lc (n i : nat) (vs : list JValue) :
  find_key lc (index_key (n + i)) (indexed_from n vs) = vs !! i.
Proof.
  revert n i. induction vs as [|v vs IH]; intros n i; simpl; [done|].
  rewrite fold_key_index_key. destruct i as [|i].
  - by rewrite Nat.add_0_r, String.eqb_refl.
  - rewrite (proj2 (String.eqb_neq _ _)).
    + replace (n + S i)%nat with (S n + i)%nat by lia. apply IH.
    + intros H%index_key_inj. lia.
Qed.

(** An array merged over a value that is no array: every scalar element
    ends up under its index. *)
Lemma lookup_merge_array lc (va : JValue) (l : list JValue) (i : nat) (e : JValue) :
  (forall l0, va <> JArr l0) -> l !! i = Some e -> typeof_object e = false ->
  get_key (deepMerge va (JArr l) lc) (index_key i) = Some e.
Proof.
  intros Hva Hi He. rewrite deepMerge_eq. unfold get_key.
  assert (obj_lookup (index_key i)
            (fold_left (merge_step lc) (for_in (JArr l)) (copy_props lc va)) = Some e) as H.
  { rewrite lookup_merge_loop by apply NoDup_indexed_from. simpl.
    pose proof (find_key_indexed_from lc 0 i l) as Hf. simpl in Hf.
    rewrite Hf, Hi. by rewrite He, andb_false_r. }
  destruct va; try done. by destruct (Hva items).
Qed.

(** The copy of a string: every character under its index. *)
Lemma lookup_copy_string lc (s : string) (i : nat) :
  obj_lookup (index_key i) (copy_props lc (JStr s)) = chars s !! i.
Proof.
  unfold copy_props. simpl. rewrite lookup_copy_loop.
  rewrite last_writer_find by apply NoDup_indexed_from.
  pose proof (find_key_indexed_from lc 0 i (chars s)) as Hf. simpl in Hf.
  rewrite Hf. by destruct (chars s !! i).
Qed.

End IndexKeys.

(** ** Speedometers *)

Section SpeedometerFacts.

Lemma mod_neq (N j n : nat) : (j < n)%nat -> (n < j + N)%nat -> (j mod N <> n mod N)%nat.
Proof.
  intros Hlt Hlt' Heq.
  pose proof (Nat.div_mod_eq j N) as Hj. pose proof (Nat.div_mod_eq n N) as Hn.
  rewrite Heq in Hj.
  destruct (Nat.le_gt_cases (n / N) (j / N)) as [Hq|Hq]; nia.
Qed.

Lemma mod_succ (N j : nat) : ((j mod N + 1) mod N = (j + 1) mod N)%nat.
Proof. destruct N; [simpl; lia|]. by rewrite Nat.Div0.add_mod_idemp_l. Qed.

Lemma mod_sub_self (N n : nat) : (N <= n -> (n - N) mod N = n mod N)%nat.
Proof.
  intros H. replace n with ((n - N) + 1 * N)%nat at 2 by lia.
  destruct N; [simpl; lia|]. by rewrite Nat.Div0.mod_add.
Qed.

Lemma bytes_sum_app (l l' : Samples) : bytes_sum (l ++ l') = bytes_sum l + bytes_sum l'.
Proof. unfold bytes_sum. induction l as [|x l IH]; simpl; [done|]. rewrite IH. lia. Qed.

(** The summing loop, started at the slot of sample [j], adds up the
    samples from [j] on and stops at the head slot. *)
Lemma sum_loop_walk (N : nat) (bytes : gmap nat Z) (h : Samples) (fuel j : nat) (acc : Z) :
  (j <= length h)%nat -> (length h < j + N)%nat -> (length h - j < fuel)%nat ->
  (forall i b t, h !! i = Some (b, t) -> (j <= i)%nat -> bytes !! (i mod N)%nat = Some b) ->
  Speedometer.sum_loop N bytes (length h mod N) fuel (j mod N) (Fin acc)
  = Some (Fin (acc + bytes_sum (drop j h))).
Proof.
  revert j acc. induction fuel as [|fuel IH]; intros j acc Hj Hwin Hfuel Hslots; [lia|].
  simpl. destruct (decide (j = length h)) as [->|Hne].
  - rewrite Nat.eqb_refl, drop_all. simpl. f_equal. f_equal. unfold bytes_sum. simpl. lia.
  - assert (j < length h)%nat as Hlt by lia.
    rewrite (proj2 (Nat.eqb_neq _ _)) by (apply mod_neq; lia).
    destruct (lookup_lt_is_Some_2 h j Hlt) as [[b t] Hb].
    rewrite (Hslots j b t Hb) by lia. simpl.
    rewrite mod_succ, IH; [|lia|lia|lia|].
    + f_equal. f_equal. rewrite (drop_S h (b, t) j Hb).
      replace (j + 1)%nat with (S j) by lia. unfold bytes_sum. simpl. lia.
    + intros i b' t' Hi Hji. apply (Hslots i b' t' Hi). lia.
Qed.

Lemma ring_inv_init (N : nat) : ring_inv N [] Speedometer.init.
Proof.
  split; simpl; try done.
  - by rewrite Nat.Div0.mod_0_l.
  - by rewrite Nat.Div0.mod_0_l.
Qed.

Lemma oldest_ts_app (h : Samples) (p : Z * Z) (d : Z) :
  oldest_ts (h ++ [p]) d = match h with [] => snd p | x :: _ => snd x end.
Proof. by destruct h. Qed.

(** One push: it returns, with the value the samples predict, and the ring
    then holds the samples with the new one. *)
Lemma push_ring (N : nat) (min : Z) (h : Samples) (st : Speedometer.State) (b t : Z) :
  (2 <= N)%nat -> t <> 0 -> ring_inv N h st ->
  exists st', Speedometer.push N min st b t = Some (st', ring_rate N min h b t)
              /\ ring_inv N (h ++ [(b, t)]) st'.
Proof.
  intros HN Ht [Hhead Htail Hslots Hfirst Hnz].
  unfold Speedometer.push. rewrite Hhead, Htail.
  rewrite (sum_loop_walk N _ h N (length h - (N - 1)) 0); [|lia|lia|lia|].
  2:{ intros i b' t' Hi Hji.
      pose proof (lookup_lt_Some _ _ _ Hi) as Hlt.
      rewrite lookup_insert_ne by (apply not_eq_sym, mod_neq; lia).
      apply (Hslots i b' t' Hi). lia. }
  cbv zeta.
  set (first' := if falsy (Speedometer.firstSampleTS st) then Some t
                 else Speedometer.firstSampleTS st).
  set (tail' := if Nat.eqb ((length h mod N + 1) mod N) ((length h - (N - 1)) mod N)
                then (((length h - (N - 1)) mod N + 1) mod N)%nat
                else ((length h - (N - 1)) mod N)%nat).
  set (st' := Speedometer.mkState _ _ _ tail' first').
  assert (Hfirst' : first' = Some (oldest_ts (h ++ [(b, t)]) t)).
  { unfold first'. rewrite Hfirst, oldest_ts_app. destruct h as [|[b0 t0] h]; simpl; [done|].
    apply Forall_cons in Hnz as [Hnz _]. simpl in Hnz.
    by rewrite (proj2 (Z.eqb_neq _ _) Hnz). }
  assert (Htail' : tail' = ((length (h ++ [(b, t)]) - (N - 1)) mod N)%nat).
  { unfold tail'. rewrite length_app. simpl. rewrite mod_succ.
    destruct (decide (length h + 1 <= N - 1)%nat) as [Hs|Hs].
    - replace (length h - (N - 1))%nat with 0%nat by lia.
      replace (length h + 1 - (N - 1))%nat with 0%nat by lia.
      rewrite Nat.Div0.mod_0_l.
      rewrite (Nat.mod_small (length h + 1)) by lia.
      by rewrite (proj2 (Nat.eqb_neq _ _)) by lia.
    - replace (length h - (N - 1))%nat with (length h + 1 - N)%nat by lia.
      rewrite mod_sub_self, Nat.eqb_refl by lia.
      rewrite <- (mod_sub_self N (length h + 1)) by lia. rewrite mod_succ.
      f_equal. lia. }
  assert (Hinv : ring_inv N (h ++ [(b, t)]) st').
  { split; simpl.
    - rewrite length_app. simpl. apply mod_succ.
    - done.
    - intros j b' t' Hj Hwin. rewrite length_app in Hwin. simpl in Hwin.
      destruct (decide (j = length h)) as [->|Hne].
      + rewrite list_lookup_middle in Hj by done. injection Hj as <- <-.
        by rewrite !lookup_insert_eq.
      + pose proof (lookup_lt_Some _ _ _ Hj) as Hlt. rewrite length_app in Hlt.
        simpl in Hlt. rewrite lookup_app_l in Hj by lia.
        rewrite !lookup_insert_ne by (apply not_eq_sym, mod_neq; lia).
        apply (Hslots j b' t' Hj). lia.
    - rewrite Hfirst'. by destruct h.
    - apply Forall_app. split; [done|]. by repeat constructor. }
  exists st'. split; [|done].
  unfold ring_rate. cbv zeta.
  rewrite Hfirst'. simpl default.
  destruct (t - oldest_ts (h ++ [(b, t)]) t <? min); [done|].
  set (h' := (h ++ [(b, t)])%list) in *.
  assert (length h' = S (length h)) as Hlen by (unfold h'; rewrite length_app; simpl; lia).
  destruct (lookup_lt_is_Some_2 h' (length h' - (N - 1))%nat) as [[b1 t1] H1]; [lia|].
  destruct (inv_slots _ _ _ Hinv _ _ _ H1) as [_ Hts]; [lia|].
  simpl in Hts. rewrite <- Htail' in Hts. rewrite Hts.
  assert (t1 <> 0) as Ht1.
  { pose proof (inv_nonzero _ _ _ Hinv) as Hnz'.
    rewrite Forall_forall in Hnz'. apply (Hnz' (b1, t1)).
    by apply list_elem_of_lookup_2 in H1. }
  unfold window. rewrite (drop_S h' (b1, t1) _ H1). simpl.
  rewrite (proj2 (Z.eqb_neq _ _) Ht1), Z.add_0_l.
  by destruct (t - t1 =? 0).
Qed.

(** A run of pushes from a ring that holds [h]: it ends, and each push
    returns what the samples before it predict. *)
Lemma run_ring (N : nat) (min : Z) (pushes h : Samples) (st : Speedometer.State) :
  (2 <= N)%nat -> Forall (fun p => snd p <> 0) pushes -> ring_inv N h st ->
  exists st', Speedometer.run N min st pushes = Some (st', ring_rates N min h pushes)
              /\ ring_inv N (h ++ pushes) st'.
Proof.
  intros HN. revert h st. induction pushes as [|[b t] pushes IH]; intros h st Hnz Hinv.
  - exists st. by rewrite app_nil_r.
  - apply Forall_cons in Hnz as [Ht Hnz]. simpl in Ht.
    destruct (push_ring N min h st b t HN Ht Hinv) as (st1 & Hpush & Hinv1).
    destruct (IH _ _ Hnz Hinv1) as (st2 & Hrun & Hinv2).
    exists st2. simpl. rewrite Hpush, Hrun. split; [done|].
    by rewrite <- app_assoc in Hinv2.
Qed.

Lemma shift_while_window (samples fuel : nat) (l : Samples) :
  (length l <= fuel)%nat ->
  CreateSpeedometer.shift_while samples fuel l = window samples l.
Proof.
  revert l. induction fuel as [|fuel IH]; intros l Hl; simpl.
  - destruct l; [done | simpl in Hl; lia].
  - unfold window. destruct (Nat.ltb_spec samples (length l)) as [Hlt|Hge].
    + destruct l as [|x l]; simpl in *; [lia|].
      rewrite IH by lia. unfold window.
      replace (S (length l) - samples)%nat with (S (length l - samples)) by lia.
      done.
    + replace (length l - samples)%nat with 0%nat by lia. done.
Qed.

Lemma window_snoc (samples : nat) (h : Samples) (p : Z * Z) :
  window samples (window samples h ++ [p]) = window samples (h ++ [p]).
Proof.
  unfold window. rewrite !length_app, length_drop. simpl.
  destruct (decide (length h < samples)%nat) as [Hlt|Hge].
  - replace (length h - samples)%nat with 0%nat by lia. simpl.
    by replace (length h - 0 + 1 - samples)%nat with (length h + 1 - samples)%nat by lia.
  - destruct samples as [|samples].
    + rewrite !drop_ge; [done| |]; rewrite ?length_app, ?length_drop; simpl; lia.
    + replace (length h - (length h - S samples) + 1 - S samples)%nat with 1%nat by lia.
      rewrite !drop_app_le by (rewrite ?length_drop; lia).
      rewrite drop_drop. f_equal. f_equal. lia.
Qed.

Lemma sum_bytes_fold (l : Samples) (acc : Z) :
  fold_left (fun s x => s + fst x) l acc = acc + bytes_sum l.
Proof.
  revert acc. unfold bytes_sum. induction l as [|x l IH]; intros acc; simpl; [lia|].
  rewrite IH. lia.
Qed.

Lemma last_window_snoc (samples : nat) (h : Samples) (p : Z * Z) x w :
  window samples (h ++ [p]) = x :: w -> last (x :: w) = Some p.
Proof.
  unfold window. intros Hw. rewrite <- Hw.
  destruct (decide (length (h ++ [p]) - samples <= length h)%nat) as [Hle|Hgt].
  - rewrite drop_app_le by done. apply last_snoc.
  - rewrite drop_ge in Hw; [done|]. rewrite length_app in *. simpl in *. lia.
Qed.

(** One push of the list speedometer, from the buffer left by the samples
    [h]. *)
Lemma push_list (samples : nat) (minTime : Z) (h : Samples) (b t : Z) :
  CreateSpeedometer.push samples minTime (window samples h) b t
  = (window samples (h ++ [(b, t)]), list_rate samples minTime h b t).
Proof.
  unfold CreateSpeedometer.push, list_rate. cbv zeta.
  rewrite shift_while_window by done. rewrite window_snoc.
  destruct (window samples (h ++ [(b, t)])) as [|x w] eqn:Hw; [done|].
  rewrite (last_window_snoc _ _ _ _ _ Hw). simpl.
  unfold CreateSpeedometer.sum_bytes. rewrite sum_bytes_fold, Z.add_0_l.
  destruct (t - x.2 <? minTime); [done|]. by destruct (0 <? t - x.2).
Qed.

(** C8, as stated, fails on the ring speedometer: the sample just pushed
    is not counted, so the second push returns 50 where the bytes of all
    retained samples over the elapsed time would give 150. *)
Lemma C8_counterexample :
  snd <$> Speedometer.run 10 1000 Speedometer.init [(100, 1000); (200, 3000)]
    = Some [Speedometer.Undefined; Speedometer.Value 50] /\
  claimed_rate 10 1000 [(100, 1000)] 200 3000 = Speedometer.Value 150 /\
  Speedometer.Value 50 <> claimed_rate 10 1000 [(100, 1000)] 200 3000.
Proof. by vm_compute. Qed.

(** C8 (amended): every push returns.  On the ring speedometer (at least
    two slots, clock never 0) a push returns [undefined] while fewer than
    [min] milliseconds have passed since the first sample; otherwise, with
    the bytes of the last [samplesCount - 1] samples pushed before it (the
    new sample is not counted) and the time since the oldest of the last
    [samplesCount - 1] samples counting the new one, [undefined] when that
    time is zero and else [round(bytes * 1000 / time)].  On the list
    speedometer a push returns [undefined] while the last [samples] samples,
    the new one counted, span fewer than [minTime] milliseconds or no
    positive time, and else [round(bytes * 1000 / span)] over those
    samples. *)
Theorem C8_speedometer_rate (N : nat) (min : Z) (pushes : Samples)
    (samples : nat) (minTime : Z) (h : Samples) (b t : Z) :
  (2 <= N)%nat -> Forall (fun p => snd p <> 0) pushes ->
  (exists st, Speedometer.run N min Speedometer.init pushes
              = Some (st, ring_rates N min [] pushes)) /\
  CreateSpeedometer.push samples minTime (window samples h) b t
  = (window samples (h ++ [(b, t)]), list_rate samples minTime h b t).
Proof.
  intros HN Hnz. split.
  - destruct (run_ring N min pushes [] Speedometer.init HN Hnz (ring_inv_init N))
      as (st & Hrun & _).
    by exists st.
  - apply push_list.
Qed.

Lemma C8_speedometer_rate_witness :
  (exists st, Speedometer.run 3 0 Speedometer.init [(1, 10); (2, 20); (4, 40); (8, 80)]
              = Some (st, [Speedometer.Undefined; Speedometer.Value 100;
                           Speedometer.Value 150; Speedometer.Value 150])) /\
  CreateSpeedometer.push 10 300 [(100, 1000)] 200 3000
  = ([(100, 1000); (200, 3000)], Some 150).
Proof.
  apply (C8_speedometer_rate 3 0 [(1, 10); (2, 20); (4, 40); (8, 80)]
           10 300 [(100, 1000)] 200 3000).
  - lia.
  - repeat constructor; simpl; lia.
Defined.

End SpeedometerFacts.

(** ** The delayed transform of [withProgress] *)

Section PipeFacts.

Variables (totalBytes : Z) (isUpload : bool).

Lemma toAxiosProgress_ring (loaded' bytes' now : Z) (h : Samples) (sp : Speedometer.State) :
  now <> 0 -> ring_inv 10 h sp ->
  exists sp' ev,
    Progress.toAxiosProgress loaded' totalBytes bytes' isUpload sp now = Some (sp', ev) /\
    ring_inv 10 (h ++ [(bytes', now)]) sp' /\
    loaded ev = loaded' /\ plain_ratio totalBytes ev.
Proof.
  intros Hnow Hinv. unfold Progress.toAxiosProgress.
  destruct (push_ring 10 1000 h sp bytes' now) as (sp' & -> & Hinv'); [lia|done|done|].
  simpl. do 2 eexists. split; [reflexivity|]. split; [done|]. by split.
Qed.

(** Reading a stream through the transform: every chunk comes out as it
    went in; each chunk but the first triggers one event; the flush adds one
    event, which reports all the bytes, unless no chunk was ever seen; no
    event carries a clamped ratio. *)
Lemma pipe_from (chunks : list (Chunk * Z)) (end_time : Z) (st : Progress.State) (h : Samples) :
  ring_inv 10 h (Progress._speedometer st) ->
  Forall (fun c => snd c <> 0) chunks -> end_time <> 0 ->
  exists evs flushed,
    Progress.pipe totalBytes isUpload st chunks end_time = Some (chunks.*1, evs, flushed) /\
    length evs = (match Progress.previousChunk st with
                  | Some _ => length chunks
                  | None => pred (length chunks)
                  end) /\
    match Progress.previousChunk st, chunks with
    | None, [] => flushed = []
    | _, _ => exists ev, flushed = [ev] /\
                loaded ev = Progress.transferredBytes st + pending st + bytes_of chunks
    end /\
    Forall (plain_ratio totalBytes) (evs ++ flushed).
Proof.
  revert st h. induction chunks as [|[c now] chunks IH]; intros st h Hinv Hnz Hend.
  - simpl. unfold Progress.flush, pending.
    destruct (Progress.previousChunk st) as [p|] eqn:Hp.
    + destruct (toAxiosProgress_ring (Progress.transferredBytes st + byteLength p)
                  (byteLength p) end_time h _ Hend Hinv) as (sp' & ev & -> & _ & Hl & Hr).
      simpl. exists [], [ev]. repeat split; [|by repeat constructor].
      exists ev. split; [done|]. unfold bytes_of. simpl. lia.
    + simpl. exists [], []. by repeat split.
  - apply Forall_cons in Hnz as [Hnow Hnz]. simpl in Hnow.
    cbn [Progress.pipe]. unfold Progress.transform, pending.
    destruct (Progress.previousChunk st) as [p|] eqn:Hp.
    + cbv zeta.
      destruct (toAxiosProgress_ring (Progress.transferredBytes st + byteLength p)
                  (byteLength p) now h _ Hnow Hinv) as (sp' & ev & -> & Hinv' & Hl & Hr).
      simpl.
      destruct (IH (Progress.mkState (Some c) (Progress.transferredBytes st + byteLength p) sp')
                  _ Hinv' Hnz Hend) as (evs & flushed & -> & Hlen & Hfl & Hall).
      simpl in *. exists (ev :: evs), flushed. repeat split.
      * simpl. by rewrite Hlen.
      * destruct Hfl as (ev' & -> & Hl'). exists ev'. split; [done|].
        rewrite Hl'. unfold pending. simpl. lia.
      * simpl. by constructor.
    + simpl.
      destruct (IH (Progress.mkState (Some c) (Progress.transferredBytes st)
                      (Progress._speedometer st)) _ Hinv Hnz Hend)
        as (evs & flushed & -> & Hlen & Hfl & Hall).
      simpl in *. exists evs, flushed. repeat split; [done| |done].
      destruct Hfl as (ev' & -> & Hl'). exists ev'. split; [done|].
      rewrite Hl'. unfold pending. simpl. lia.
Qed.

(** From the start of a stream whose clock never reads 0. *)
Theorem withProgress_events (chunks : list (Chunk * Z)) (end_time : Z) :
  Forall (fun c => snd c <> 0) chunks -> end_time <> 0 ->
  exists evs flushed,
    Progress.pipe totalBytes isUpload Progress.init chunks end_time
      = Some (chunks.*1, evs, flushed) /\
    length evs = pred (length chunks) /\
    match chunks with
    | [] => flushed = []
    | _ => exists ev, flushed = [ev] /\ loaded ev = bytes_of chunks
    end /\
    Forall (plain_ratio totalBytes) (evs ++ flushed).
Proof.
  intros Hnz Hend.
  destruct (pipe_from chunks end_time Progress.init [] (ring_inv_init 10) Hnz Hend)
    as (evs & flushed & Hp & Hlen & Hfl & Hall).
  exists evs, flushed. split; [done|]. split; [done|]. split; [|done].
  simpl in Hfl. destruct chunks; [done|].
  destruct Hfl as (ev & -> & Hl). exists ev. split; [done|]. rewrite Hl.
  unfold pending. simpl. lia.
Qed.

(** Whenever the stream carries more bytes than the announced total, the
    event of the flush carries a ratio above 1. *)
Corollary flush_ratio_above_one (chunks : list (Chunk * Z)) (end_time : Z) :
  Forall (fun c => snd c <> 0) chunks -> end_time <> 0 ->
  0 < totalBytes < bytes_of chunks ->
  exists evs ev q,
    Progress.pipe totalBytes isUpload Progress.init chunks end_time
      = Some (chunks.*1, evs, [ev]) /\
    progress ev = Some q /\ (1 < q)%Q.
Proof.
  intros Hnz Hend [Hpos Hlt].
  destruct (withProgress_events chunks end_time Hnz Hend)
    as (evs & flushed & Hp & _ & Hfl & Hall).
  destruct chunks as [|c chunks]; [unfold bytes_of in Hlt; simpl in Hlt; lia|].
  destruct Hfl as (ev & -> & Hl).
  apply Forall_app in Hall as [_ Hall]. apply Forall_cons in Hall as [Hr _].
  unfold plain_ratio in Hr. rewrite (proj2 (Z.ltb_lt _ _) Hpos), Hl in Hr.
  exists evs, ev. eexists. split; [done|]. split; [done|].
  unfold div. apply Qlt_shift_div_l.
  - by rewrite <- (Zlt_Qlt 0).
  - rewrite Qmult_1_l. by rewrite <- Zlt_Qlt.
Qed.

End PipeFacts.

(** ** Progress wrappers *)

Section ProgressClaims.

(** C7: the code at the failing inputs.  With a total of 10 bytes and two
    chunks of 8 bytes, the event of the flush carries a ratio above 1 (no
    clamp, no bound); with chunks of 10 and 0 bytes the event that precedes
    the flush carries the ratio 1, not a ratio clamped below 1.  The
    transform of stream.js gives the same ratios, without a flush. *)
Theorem C7_ratio_not_clamped :
  (exists out ev1 ev2 q,
      Progress.pipe 10 false Progress.init
        [(chunk_of 8, 100); (chunk_of 8, 200)] 300 = Some (out, [ev1], [ev2]) /\
      loaded ev2 = 16 /\ progress ev2 = Some q /\ (1 < q)%Q) /\
  (exists out ev1 ev2 q,
      Progress.pipe 10 false Progress.init
        [(chunk_of 10, 100); (chunk_of 0, 200)] 300 = Some (out, [ev1], [ev2]) /\
      loaded ev1 = 10 /\ progress ev1 = Some q /\ (q == 1)%Q) /\
  (exists out ev1 ev2 q,
      Stream.pipe (Some 10) false Stream.init
        [(chunk_of 8, 100); (chunk_of 8, 200)] = (out, [ev1; ev2]) /\
      progress ev2 = Some q /\ (1 < q)%Q).
Proof.
  split; [|split].
  - do 4 eexists. split; [vm_compute; reflexivity|].
    split; [reflexivity|]. split; [reflexivity|]. by vm_compute.
  - do 4 eexists. split; [vm_compute; reflexivity|].
    split; [reflexivity|]. split; [reflexivity|]. by vm_compute.
  - do 4 eexists. split; [vm_compute; reflexivity|].
    split; [reflexivity|]. by vm_compute.
Qed.

Variable Number : option string -> option Z.

(** C9, as stated, fails: a 204 response whose body is already absent is
    returned as it is, not rebuilt; the response built anew would have lost
    its URL. *)
Lemma C9_counterexample :
  let r := {| status := 204; statusText := "No Content"; headers := Some [];
              body := None; ok := true; url := "http://host/item";
              redirected := false; type := "basic" |} in
  streamResponse (fun _ => None) r (JFun "onDownloadProgress") = Normal r /\
  wrapResponseWithProgress (fun _ => None) r (JFun "onDownloadProgress") = Normal r /\
  new_Response None (mkInit 204 "No Content" (Some [])) <> Normal r.
Proof. by vm_compute. Qed.

(** C9 (amended): for a response with status 204 and a download-progress
    callback, both wrappers return a response with a null body and the same
    status, status text and headers, and reading it hands the callback no
    event; the response is built anew when the incoming one has a body, and
    is the incoming one itself when its body is already absent. *)
Theorem C9_no_content (r : Response) (onDownloadProgress : JValue) (clock : nat -> Z) :
  status r = 204 -> truthy onDownloadProgress = true ->
  exists r',
    streamResponse Number r onDownloadProgress = Normal r' /\
    wrapResponseWithProgress Number r onDownloadProgress = Normal r' /\
    body r' = None /\ status r' = status r /\ statusText r' = statusText r /\
    default [] (headers r') = default [] (headers r) /\
    events_of_body clock (body r') = Some [] /\
    match body r with
    | Some _ => new_Response None (mkInit (status r) (statusText r) (headers r)) = Normal r'
    | None => r' = r
    end.
Proof.
  intros Hs Hcb. unfold streamResponse, wrapResponseWithProgress.
  destruct (body r) as [s|] eqn:Hb.
  - rewrite Hcb, Hs. simpl. eexists. repeat split.
  - exists r. rewrite Hb. repeat split.
Qed.

End ProgressClaims.

Lemma C9_no_content_witness :
  let r := {| status := 204; statusText := "No Content";
              headers := Some [("etag", "7")];
              body := Some (Source [chunk_of 3]); ok := true; url := "http://host/item";
              redirected := false; type := "basic" |} in
  exists r',
    streamResponse (fun _ => None) r (JFun "onDownloadProgress") = Normal r' /\
    body r' = None /\ status r' = 204 /\ headers r' = Some [("etag", "7")] /\
    url r' = "".
Proof.
  intros r.
  destruct (C9_no_content (fun _ => None) r (JFun "onDownloadProgress") (fun _ => 1))
    as (r' & H1 & _ & H3 & H4 & _ & _ & _ & H8).
  - reflexivity.
  - reflexivity.
  - exists r'. simpl in H8. injection H8 as <-. repeat split.
Defined.

(** ** Request orchestrator *)

Section OrchestratorClaims.

Variable call : string -> list JValue -> JValue.
Variable JSON_stringify : JValue -> JValue.
Variable JSON_parse : string -> option JValue.
Variable xsrf : JValue -> Props -> Props.
Variable resolve_url : JValue -> JValue -> Completion JValue.
Variables has_Request has_ReadableStream : bool.
Variable Request : Type.
Variable upload_request : JValue -> Axios.FetchOptions -> JValue -> JValue -> option Request.
Variable Number : option string -> option Z.
Variable invoke : Response -> string -> option (Settled JValue JValue).

Local Abbreviation dispatch :=
  (Axios.dispatch call JSON_stringify xsrf resolve_url has_Request has_ReadableStream
     Request upload_request).
Local Abbreviation assemble := (Axios.assemble JSON_parse has_ReadableStream Number invoke).
Local Abbreviation settle := (Axios.settle call JSON_parse has_ReadableStream Number invoke).

(** C1 (amended): the options handed to the transport always carry the
    resolved data as [body], whatever the method, GET and HEAD included;
    the method test only gates the upload instrumentation: a request
    descriptor is dispatched in place of URL and options only when the data
    is truthy and the method is neither GET nor HEAD. *)
Theorem C1_body_is_resolved_data
    (defaults urlOrConfig config _method data _undefined : JValue) (d : Axios.Dispatch Request) :
  dispatch defaults urlOrConfig config _method data _undefined = Normal d ->
  exists data1,
    Axios.transformed_data call (Axios.d_options _ d) data = Normal data1 /\
    Axios.effective_method (Axios.d_options _ d) _method = Normal (Axios.d_method _ d) /\
    Axios.d_data _ d = fst (Axios.encoded JSON_stringify (Axios.d_options _ d) data1) /\
    match Axios.d_call _ d with
    | inr (_, init) =>
        Axios.method init = Axios.d_method _ d /\ Axios.fo_body init = Axios.d_data _ d
    | inl _ =>
        truthy (Axios.d_data _ d) = true /\
        Axios.d_method _ d <> "GET" /\ Axios.d_method _ d <> "HEAD"
    end.
Proof.
  unfold Axios.dispatch. intros H.
  destruct (Axios.nullish urlOrConfig); [discriminate|].
  set (options := deepMerge defaults _ false) in *.
  destruct (Axios.transformed_data call options data) as [data1|] eqn:Hdata; [|discriminate].
  destruct (Axios.encoded JSON_stringify options data1) as [body customHeaders] eqn:Henc.
  destruct (resolve_url options _) as [url|]; [|discriminate].
  destruct (Axios.effective_method options _method) as [m|] eqn:Hm; [|discriminate].
  injection H as <-. simpl. exists data1. rewrite Henc. repeat split; try done.
  destruct (_ && _ && _ && _)%bool eqn:Hgate; [|done].
  destruct (upload_request _ _ _ _); [|done].
  apply andb_prop in Hgate as [Hgate _]. apply andb_prop in Hgate as [Hgate _].
  apply andb_prop in Hgate as [Hgate _]. unfold Axios.hasBody in Hgate.
  apply andb_prop in Hgate as [Hgate Hhead]. apply andb_prop in Hgate as [Hdata' Hget].
  repeat split; [done| |].
  - intros ->. by rewrite String.eqb_refl in Hget.
  - intros ->. by rewrite String.eqb_refl in Hhead.
Qed.

(** Wrapping for download progress keeps the status. *)
Lemma assemble_ready_status (options config : JValue) (res res1 : Response)
    (response : Axios.AxiosResponse) :
  assemble options config res = Axios.Ready res1 response ->
  status res1 = status res /\ Axios.copied response = res1 /\
  Axios.config response = config /\
  (truthy (prop options "onDownloadProgress") = false -> res1 = res).
Proof.
  unfold Axios.assemble. intros H.
  assert (Hwrap : forall r, wrapResponseWithProgress Number res
                    (prop options "onDownloadProgress") = Normal r ->
                  status r = status res).
  { unfold wrapResponseWithProgress, new_Response. intros r Hr.
    repeat (match type of Hr with
            | context [match ?x with _ => _ end] => destruct x; try discriminate
            end); by injection Hr as <-. }
  destruct (truthy (prop options "onDownloadProgress") && has_ReadableStream)%bool eqn:Hg.
  - destruct (wrapResponseWithProgress _ _ _) as [r|] eqn:Hr; [|discriminate].
    destruct (is_str _ "stream"); [discriminate|].
    destruct (jor _ _); try discriminate.
    destruct (invoke r s); [|discriminate]. injection H as <- <-.
    repeat split; [by apply Hwrap|].
    intros Hcb. by rewrite Hcb in Hg.
  - destruct (is_str _ "stream"); [discriminate|].
    destruct (jor _ _); try discriminate.
    destruct (invoke res s); [|discriminate]. by injection H as <- <-.
Qed.

(** C2 (amended): for every transport response that reaches
    classification (the response type is not ['stream'], which resolves at
    once and unvalidated, and the decode method can be called), the call
    rejects, when validation fails, with an Error whose message is "Request
    failed with status code N", N the status of the response, carrying the
    assembled Response, the effective configuration and [isAxiosError] set;
    when validation passes it resolves with the assembled Response. *)
Theorem C2_classification (options config : JValue) (res res1 : Response)
    (response : Axios.AxiosResponse) (passes : bool) :
  assemble options config res = Axios.Ready res1 response ->
  Axios.validate call options res1 = Normal passes ->
  status res1 = status res /\
  settle options config (Resolved res) =
  if passes then Resolved response
  else Rejected (Axios.Error
         {| Axios.name := "Error";
            Axios.message := "Request failed with status code " ++ string_of_Z (status res);
            Axios.response := Some response;
            Axios.err_config := Some options;
            Axios.isAxiosError := true |}).
Proof.
  intros Hready Hval.
  destruct (assemble_ready_status _ _ _ _ _ Hready) as (Hst & _).
  split; [done|].
  unfold Axios.settle, Axios.then_handler, Axios.classify.
  rewrite Hready, Hval, Hst. by destruct passes.
Qed.

(** C3: a transport rejection recognizable as an abort, by name or by code,
    makes the call reject with the canonical cancellation error, whatever
    the message of the original: fixed name and message, no response, and
    [isCancel] holds of it. *)
Theorem C3_cancellation (options config e : JValue) :
  truthy e = true ->
  prop e "name" = JStr "AbortError" \/ prop e "code" = JStr "ERR_CANCELED" ->
  settle options config (Rejected e) = Rejected (Axios.Error Axios.cancelError) /\
  Axios.name Axios.cancelError = "AbortError" /\
  Axios.message Axios.cancelError = "canceled" /\
  Axios.response Axios.cancelError = None /\
  Axios.isCancel (Axios.Error Axios.cancelError) = JBool true.
Proof.
  intros He Habort. repeat split.
  unfold Axios.settle, Axios.catch_handler, Axios.is_abort, Axios.and_prop_is.
  rewrite He. destruct Habort as [-> | ->]; simpl.
  - done.
  - unfold jor. simpl. by destruct (is_str (prop e "name") "AbortError").
Qed.

(** The decode step: a string is parsed unless the response type is
    ['text'], in which case it is kept as it is. *)
Lemma decoded_data_text (options : JValue) (s : string) :
  is_str (prop options "responseType") "text" = true ->
  Axios.decoded_data JSON_parse options (Resolved (JStr s)) = JStr s.
Proof. intros H. unfold Axios.decoded_data. by rewrite H. Qed.

Lemma decoded_data_parsed (options : JValue) (s : string) :
  is_str (prop options "responseType") "text" = false ->
  Axios.decoded_data JSON_parse options (Resolved (JStr s)) =
  match JSON_parse s with
  | Some parsed => parsed
  | None => JStr s
  end.
Proof. intros H. unfold Axios.decoded_data. by rewrite H. Qed.

End OrchestratorClaims.

(** C1, as stated, fails: a GET request made with data carries the data as
    the body of the options handed to the transport. *)
Lemma C1_counterexample :
  exists d init,
    Axios.dispatch Demo.call Demo.JSON_stringify Demo.xsrf Demo.resolve_url
      true true unit Demo.upload_request
      (JObj []) (JStr "/items") (JObj [("data", JStr "payload")])
      (JStr "get") JUndefined JUndefined = Normal d /\
    Axios.d_call _ d = inr (JStr "/items", init) /\
    Axios.method init = "GET" /\
    Axios.fo_body init = JStr "payload" /\
    Axios.fo_body init <> JUndefined.
Proof. do 2 eexists. split; [vm_compute; reflexivity|]. by repeat split. Qed.

Lemma C1_body_is_resolved_data_witness :
  exists d init,
    Axios.d_call unit d = inr (JStr "/items", init) /\
    Axios.method init = "HEAD" /\ Axios.fo_body init = JStr "payload".
Proof.
  pose (d := {| Axios.d_config := JObj [("data", JStr "payload")];
                Axios.d_options := JObj [("data", JStr "payload")];
                Axios.d_data := JStr "payload";
                Axios.d_method := "HEAD";
                Axios.d_call := inr (JStr "/items",
                  {| Axios.method := "HEAD"; Axios.fo_body := JStr "payload";
                     Axios.fo_headers := JObj []; Axios.credentials := JUndefined;
                     Axios.signal := JUndefined |}) |} : Axios.Dispatch unit).
  destruct (C1_body_is_resolved_data Demo.call Demo.JSON_stringify Demo.xsrf
              Demo.resolve_url true true unit Demo.upload_request
              (JObj []) (JStr "/items") (JObj [("data", JStr "payload")])
              (JStr "head") JUndefined JUndefined d)
    as (data1 & _ & _ & _ & Hcall).
  - reflexivity.
  - simpl in Hcall. destruct Hcall as [Hm Hb]. exists d. eexists.
    split; [reflexivity|]. split; [exact Hm | exact Hb].
Defined.

(** C2, as stated, fails: with the response type ['stream'] a response
    whose status fails validation resolves the call. *)
Lemma C2_counterexample :
  let options := JObj [("responseType", JStr "stream")] in
  let res := Demo.response_of 404 false in
  Axios.validate Demo.call options res = Normal false /\
  Axios.settle Demo.call Demo.JSON_parse true Demo.Number
    (Demo.invoke_text "gone") options (JObj []) (Resolved res)
  = Resolved (Axios.mkAxiosResponse (JObj []) res (Axios.BodyStream None)).
Proof. by vm_compute. Qed.

Lemma C2_classification_witness :
  let res := Demo.response_of 404 false in
  let response := Axios.mkAxiosResponse (JObj []) res (Axios.Val (JStr "gone")) in
  Axios.settle Demo.call Demo.JSON_parse true Demo.Number
    (Demo.invoke_text "gone") (JObj []) (JObj []) (Resolved res)
  = Rejected (Axios.Error
      {| Axios.name := "Error";
         Axios.message := "Request failed with status code 404";
         Axios.response := Some response;
         Axios.err_config := Some (JObj []);
         Axios.isAxiosError := true |}).
Proof.
  intros res response.
  refine (proj2 (C2_classification Demo.call Demo.JSON_parse true Demo.Number
            (Demo.invoke_text "gone") (JObj []) (JObj []) res res response false _ _)).
  - reflexivity.
  - reflexivity.
Defined.

Lemma C3_cancellation_witness :
  let e := JObj [("name", JStr "AbortError"); ("message", JStr "The user aborted a request.")] in
  Axios.settle Demo.call Demo.JSON_parse true Demo.Number
    (Demo.invoke_text "") (JObj []) (JObj []) (Rejected e)
  = Rejected (Axios.Error Axios.cancelError).
Proof.
  intros e.
  refine (proj1 (C3_cancellation Demo.call Demo.JSON_parse true Demo.Number
            (Demo.invoke_text "") (JObj []) (JObj []) e _ _)).
  - reflexivity.
  - left. reflexivity.
Defined.

(** C4: the code at the failing input.  With the response type ['text']
    the body of the JSON fixture, which [JSON.parse] accepts, stays the
    string it is; with no response type it is parsed. *)
Theorem C4_text_not_parsed :
  let res := Demo.response_of 200 true in
  let run options :=
    Axios.settle Demo.call Demo.JSON_parse true Demo.Number
      (Demo.invoke_text Demo.jsonExample) options (JObj []) (Resolved res) in
  Demo.JSON_parse Demo.jsonExample = Some Demo.hello_world /\
  run (JObj [("responseType", JStr "text")])
    = Resolved (Axios.mkAxiosResponse (JObj []) res (Axios.Val (JStr Demo.jsonExample))) /\
  run (JObj [])
    = Resolved (Axios.mkAxiosResponse (JObj []) res (Axios.Val Demo.hello_world)).
Proof. by vm_compute. Qed.

(** ** Claims on the config merger *)

Section MergeClaims.

Implicit Types (k : string) (v va vb : JValue) (a b ha hb : Props).

Lemma mergeConfig_objects a b :
  mergeConfig (JObj a) (JObj b) = deepMerge (JObj a) (JObj b) false.
Proof. reflexivity. Qed.

(** What [mergeConfig] holds under a key the two objects share. *)
Lemma mergeConfig_shared_key a b k va vb :
  NoDup a.*1 -> NoDup b.*1 ->
  obj_lookup k a = Some va -> obj_lookup k b = Some vb ->
  get_key (mergeConfig (JObj a) (JObj b)) k =
  Some (if typeof_object vb then deepMerge va vb (String.eqb k "headers") else vb).
Proof.
  intros Ha Hb Hka Hkb. rewrite mergeConfig_objects, deepMerge_eq.
  unfold get_key. simpl.
  rewrite lookup_merge_loop by (by rewrite fold_key_false_keys).
  rewrite find_key_false, Hkb. unfold obj_has, obj_get.
  rewrite lookup_copy_props_false by done. by rewrite Hka.
Qed.

(** C5, as stated, fails: an incoming array does not replace an existing
    array, it is concatenated onto it. *)
Lemma C5_counterexample :
  let A := JObj [("a", JArr [JNum 1])] in
  let B := JObj [("a", JArr [JNum 2])] in
  get_key B "a" = Some (JArr [JNum 2]) /\
  get_key (mergeConfig A B) "a" = Some (JArr [JNum 1; JNum 2]) /\
  get_key (mergeConfig A B) "a" <> get_key B "a".
Proof. by vm_compute. Qed.

(** C5 (amended): for objects [A] and [B] without a property named
    [__proto__], sharing a key [k]: an incoming value of type object (nested
    object, array, null) is merged into the existing one by
    [deepMerge(A[k], B[k], k == 'headers')].  For nested objects and [k]
    other than [headers] this is [merge(A[k], B[k])].  An existing array is
    extended with the incoming value of type object by [concat]: two arrays
    are concatenated.  An incoming array over an existing value that is no
    array is merged index by index into an object built from that value:
    every scalar element ends up under its index.  An incoming scalar
    replaces the existing value outright. *)
Theorem C5_merge_shared_key a b k va vb :
  proto_free (JObj a) = true -> proto_free (JObj b) = true ->
  NoDup a.*1 -> NoDup b.*1 ->
  obj_lookup k a = Some va -> obj_lookup k b = Some vb ->
  let merged := get_key (mergeConfig (JObj a) (JObj b)) k in
  (typeof_object vb = true ->
     merged = Some (deepMerge va vb (String.eqb k "headers"))) /\
  (forall pa pb, va = JObj pa -> vb = JObj pb -> k <> "headers" ->
     merged = Some (mergeConfig va vb)) /\
  (forall l, va = JArr l -> typeof_object vb = true -> merged = Some (concat l vb)) /\
  (forall l l', va = JArr l -> vb = JArr l' -> merged = Some (JArr (l ++ l'))) /\
  (forall l', vb = JArr l' -> (forall l, va <> JArr l) ->
     exists pc, merged = Some (JObj pc) /\
       forall i e, l' !! i = Some e -> typeof_object e = false ->
         obj_lookup (index_key i) pc = Some e) /\
  (typeof_object vb = false -> merged = Some vb).
Proof.
  intros _ _ Ha Hb Hka Hkb merged.
  pose proof (mergeConfig_shared_key a b k va vb Ha Hb Hka Hkb) as Hm.
  fold merged in Hm. split; [|split; [|split; [|split; [|split]]]].
  - intros Hv. by rewrite Hm, Hv.
  - intros pa pb -> -> Hk. rewrite Hm. simpl.
    by rewrite (proj2 (String.eqb_neq _ _) Hk).
  - intros l -> Hv. by rewrite Hm, Hv, deepMerge_eq.
  - intros l l' -> ->. by rewrite Hm.
  - intros l' -> Hva. rewrite Hm. cbn [typeof_object typeof String.eqb].
    change (typeof_object (JArr l')) with true. cbv iota.
    pose proof (fun i e => lookup_merge_array (String.eqb k "headers") va l' i e Hva) as Hl.
    rewrite deepMerge_eq in Hl |- *.
    destruct va; try (by destruct (Hva items));
      (eexists; split; [reflexivity|]; intros i e Hi He; exact (Hl i e Hi He)).
  - intros Hv. by rewrite Hm, Hv.
Qed.

Lemma C5_merge_shared_key_witness :
  let a := [("timeout", JNum 5); ("params", JObj [("x", JNum 1)])] in
  let b := [("params", JObj [("y", JNum 2)])] in
  get_key (mergeConfig (JObj a) (JObj b)) "params"
  = Some (mergeConfig (JObj [("x", JNum 1)]) (JObj [("y", JNum 2)])).
Proof.
  intros a b.
  refine (proj1 (proj2 (C5_merge_shared_key a b "params"
            (JObj [("x", JNum 1)]) (JObj [("y", JNum 2)]) _ _ _ _ _ _)) _ _ _ _ _).
  - reflexivity.
  - reflexivity.
  - by apply (bool_decide_unpack _).
  - by apply (bool_decide_unpack _).
  - reflexivity.
  - reflexivity.
  - reflexivity.
  - reflexivity.
  - discriminate.
Defined.

(** C6, as stated, fails: inside [headers], merged with folding on, the
    recursive merge of the shared key [common] does not receive the
    caller's [true]; its keys keep their case. *)
Lemma C6_counterexample :
  let cA := JObj [("X-A", JStr "1")] in
  let cB := JObj [("X-B", JStr "2")] in
  let A := JObj [("headers", JObj [("common", cA)])] in
  let B := JObj [("headers", JObj [("common", cB)])] in
  get_key (mergeConfig A B) "headers"
    = Some (deepMerge (JObj [("common", cA)]) (JObj [("common", cB)]) true) /\
  get_key (deepMerge (JObj [("common", cA)]) (JObj [("common", cB)]) true) "common"
    = Some (JObj [("X-A", JStr "1"); ("X-B", JStr "2")]) /\
  deepMerge cA cB true = JObj [("x-a", JStr "1"); ("x-b", JStr "2")] /\
  get_key (deepMerge (JObj [("common", cA)]) (JObj [("common", cB)]) true) "common"
    <> Some (deepMerge cA cB true).
Proof. by vm_compute. Qed.

(** C6 (amended): on objects without a property named [__proto__], the
    recursive merge of a shared key of type object receives
    [key == 'headers'] as its folding flag, whatever the caller's flag:
    [true] under [headers], [false] under every other key.  A merge of flat
    header maps with folding on is last-writer-wins on lower-cased names:
    every key of the result is lower-cased and occurs once, and holds the
    value written last, the override's where it names the header. *)
Theorem C6_fold_flag_and_headers lc a (b : Props) k vb ha hb :
  proto_free (JObj a) = true -> proto_free (JObj b) = true ->
  proto_free (JObj ha) = true -> proto_free (JObj hb) = true ->
  NoDup (fold_key lc <$> b.*1) ->
  find_key lc k b = Some vb -> typeof_object vb = true ->
  obj_has k (copy_props lc (JObj a)) = true ->
  Forall (fun p => typeof_object p.2 = false) hb ->
  get_key (deepMerge (JObj a) (JObj b) lc) k
    = Some (deepMerge (obj_get k (copy_props lc (JObj a))) vb (String.eqb k "headers")) /\
  let merged := deepMerge (JObj ha) (JObj hb) true in
  (forall n, get_key merged n = last_writer true n (ha ++ hb)) /\
  (forall n w, last_writer true n hb = Some w -> get_key merged n = Some w) /\
  NoDup (props_of merged).*1 /\
  Forall (fun n => toLowerCase n = n) (props_of merged).*1.
Proof.
  intros _ _ _ _ Hnd Hk Hvb Hhas Hflat. split.
  - rewrite deepMerge_eq. unfold get_key. simpl.
    rewrite lookup_merge_loop by done. by rewrite Hk, Hhas, Hvb.
  - intros merged. unfold merged. rewrite deepMerge_flat by done.
    unfold get_key. simpl. repeat split.
    + intros n. rewrite lookup_copy_loop. simpl.
      by destruct (last_writer true n (ha ++ hb)).
    + intros n w Hw. rewrite lookup_copy_loop, last_writer_app, Hw. done.
    + apply NoDup_copy_loop. constructor.
    + apply Forall_forall. intros n Hn.
      apply keys_copy_loop in Hn as [Hn|(i & _ & ->)].
      * by apply elem_of_nil in Hn.
      * simpl. apply toLowerCase_idem.
Qed.

Lemma C6_fold_flag_and_headers_witness :
  let ha := [("X-Foo", JStr "1")] in
  let hb := [("x-foo", JStr "2")] in
  get_key (deepMerge (JObj [("headers", JObj ha)]) (JObj [("headers", JObj hb)]) false)
    "headers"
    = Some (deepMerge (JObj ha) (JObj hb) true) /\
  get_key (deepMerge (JObj ha) (JObj hb) true) "x-foo" = Some (JStr "2") /\
  (props_of (deepMerge (JObj ha) (JObj hb) true)).*1 = ["x-foo"].
Proof.
  intros ha hb.
  pose proof (C6_fold_flag_and_headers false [("headers", JObj ha)]
                [("headers", JObj hb)] "headers" (JObj hb) ha hb) as H.
  destruct H as [H1 [H2 [H3 _]]].
  - reflexivity.
  - reflexivity.
  - reflexivity.
  - reflexivity.
  - by apply (bool_decide_unpack _).
  - reflexivity.
  - reflexivity.
  - reflexivity.
  - repeat constructor.
  - split; [exact H1|]. split; [|reflexivity].
    apply (H3 "x-foo" (JStr "2")). reflexivity.
Defined.

(** C10, as stated, fails: under a [null] override an existing string is
    not turned into an empty object but into the object of its characters. *)
Lemma C10_counterexample :
  let base := JObj [("baseURL", JStr "xy")] in
  let overrides := JObj [("baseURL", JNull)] in
  get_key (mergeConfig base overrides) "baseURL"
    = Some (JObj [("0", JStr "x"); ("1", JStr "y")]) /\
  get_key (mergeConfig base overrides) "baseURL" <> Some (JObj []).
Proof. by vm_compute. Qed.

(** C10 (amended): on objects without a property named [__proto__],
    where the overrides map [k] to [null] and the base has [k], the result
    never maps [k] to [null]: it holds
    [deepMerge(base[k], null, k == 'headers')].  For an existing object this
    is a copy of it, property by property: under [headers] the names are
    lower-cased and the property enumerated last wins among names that
    differ only in case, under any other key every name reads as in the
    original.  It is the empty object for an existing number, boolean,
    function, [null] or [undefined], the existing array with [null]
    appended, and for a string the object that holds each character under
    its index and nothing else. *)
Theorem C10_null_override a b k va :
  proto_free (JObj a) = true -> proto_free (JObj b) = true ->
  NoDup a.*1 -> NoDup b.*1 ->
  obj_lookup k a = Some va -> obj_lookup k b = Some JNull ->
  let merged := get_key (mergeConfig (JObj a) (JObj b)) k in
  merged = Some (deepMerge va JNull (String.eqb k "headers")) /\
  merged <> Some JNull /\
  (forall pa, va = JObj pa ->
     exists pc, merged = Some (JObj pc) /\
       (forall n, obj_lookup n pc = last_writer (String.eqb k "headers") n pa) /\
       (NoDup pa.*1 -> k <> "headers" ->
        forall k', obj_lookup k' pc = obj_lookup k' pa)) /\
  (forall l, va = JArr l -> merged = Some (JArr (l ++ [JNull]))) /\
  (forall s, va = JStr s ->
     exists pc, merged = Some (JObj pc) /\
       (forall i, obj_lookup (index_key i) pc = chars s !! i) /\
       (forall n, n ∈ pc.*1 -> exists i, n = index_key i) /\
       (s <> "" -> pc <> [])) /\
  (for_in va = [] -> (forall l, va <> JArr l) -> merged = Some (JObj [])).
Proof.
  intros _ _ Ha Hb Hka Hkb merged.
  pose proof (mergeConfig_shared_key a b k va JNull Ha Hb Hka Hkb) as Hm.
  change (merged = Some (deepMerge va JNull (String.eqb k "headers"))) in Hm.
  split; [done|]. split; [|split; [|split; [|split]]].
  - rewrite Hm, deepMerge_eq. by destruct va.
  - intros pa ->. rewrite Hm, deepMerge_eq.
    eexists. split; [reflexivity|]. simpl. split.
    + intros n. unfold copy_props. simpl. rewrite lookup_copy_loop.
      by destruct (last_writer _ n pa).
    + intros Hpa Hk k'. rewrite (proj2 (String.eqb_neq _ _) Hk).
      by apply lookup_copy_props_false.
  - intros l ->. by rewrite Hm, deepMerge_eq.
  - intros s ->. rewrite Hm, deepMerge_eq. eexists. split; [reflexivity|].
    simpl. split; [|split].
    + intros i. apply lookup_copy_string.
    + intros n Hn. unfold copy_props in Hn. simpl in Hn.
      apply keys_copy_loop in Hn as [Hn|(i & Hi & ->)].
      * by apply elem_of_nil in Hn.
      * rewrite keys_indexed_from in Hi.
        apply list_elem_of_fmap in Hi as (j & -> & _).
        exists j. apply fold_key_index_key.
    + intros Hs. apply copy_loop_nonempty. right. by destruct s.
  - intros Hin Harr. rewrite Hm. f_equal. by apply deepMerge_null_of_scalar.
Qed.

Lemma C10_null_override_witness :
  get_key (mergeConfig (JObj [("timeout", JNum 5)]) (JObj [("timeout", JNull)])) "timeout"
  = Some (JObj []).
Proof.
  refine (proj2 (proj2 (proj2 (proj2 (proj2
    (C10_null_override [("timeout", JNum 5)] [("timeout", JNull)] "timeout" (JNum 5)
       _ _ _ _ _ _))))) _ _).
  - reflexivity.
  - reflexivity.
  - by apply (bool_decide_unpack _).
  - by apply (bool_decide_unpack _).
  - reflexivity.
  - reflexivity.
  - reflexivity.
  - discriminate.
Defined.

End MergeClaims.

(** ** Further properties of the config merger *)

Section MergeExtras.

Implicit Types (k : string) (v va vb : JValue) (a c : Props) (lc : bool).

(** Both loops assign under the (folded) name of the property they visit. *)
Lemma keys_merge_loop lc (b : Props) out k :
  k ∈ (fold_left (merge_step lc) b out).*1 <->
  k ∈ out.*1 \/ k ∈ fold_key lc <$> b.*1.
Proof.
  revert out. induction b as [|[i v] b IH]; intros out; csimpl.
  - split; [by left | intros [H|H]; [done | by apply elem_of_nil in H]].
  - rewrite IH. unfold merge_step, assign. simpl.
    rewrite elem_of_keys_obj_set, elem_of_cons. tauto.
Qed.

Lemma NoDup_merge_loop lc (b : Props) out :
  NoDup out.*1 -> NoDup (fold_left (merge_step lc) b out).*1.
Proof.
  revert out. induction b as [|[i v] b IH]; intros out Hnd; simpl; [done|].
  apply IH. unfold merge_step, assign. simpl. by apply NoDup_keys_obj_set.
Qed.

Lemma keys_copy_props lc a k :
  k ∈ (copy_props lc (JObj a)).*1 <-> k ∈ fold_key lc <$> a.*1.
Proof.
  unfold copy_props. simpl. split.
  - intros H. apply keys_copy_loop in H as [H|(i & Hi & ->)].
    + by apply elem_of_nil in H.
    + by apply list_elem_of_fmap_2.
  - revert k. generalize (@nil (string * JValue)).
    induction a as [|[i v] a IH]; intros out k; csimpl.
    + intros H. by apply elem_of_nil in H.
    + intros [->|H]%elem_of_cons.
      * clear IH. assert (fold_key lc i ∈ (copy_step lc out (i, v)).*1) as Hin.
        { unfold copy_step. simpl. apply elem_of_keys_obj_set. by left. }
        revert Hin. generalize (copy_step lc out (i, v)).
        induction a as [|[i' v'] a IH]; intros out' Hin; simpl; [done|].
        apply IH. unfold copy_step. simpl. apply elem_of_keys_obj_set. by right.
      * by apply IH.
Qed.

Lemma NoDup_deepMerge lc a (b : Props) :
  NoDup (props_of (deepMerge (JObj a) (JObj b) lc)).*1.
Proof.
  rewrite deepMerge_eq. simpl.
  apply NoDup_merge_loop. unfold copy_props. apply NoDup_copy_loop. constructor.
Qed.

(** The merge of two objects without a property named [__proto__] loses
    no key and invents none, and its keys are distinct: they are the
    (folded) keys of the base and of the overrides. *)
Theorem merge_keys lc a (b : Props) :
  proto_free (JObj a) = true -> proto_free (JObj b) = true ->
  let merged := props_of (deepMerge (JObj a) (JObj b) lc) in
  NoDup merged.*1 /\
  forall k, k ∈ merged.*1 <-> k ∈ fold_key lc <$> a.*1 \/ k ∈ fold_key lc <$> b.*1.
Proof.
  intros _ _ merged. unfold merged. rewrite deepMerge_eq. simpl. split.
  - apply NoDup_merge_loop. unfold copy_props. apply NoDup_copy_loop. constructor.
  - intros k. rewrite keys_merge_loop, keys_copy_props. done.
Qed.

Lemma merge_keys_witness :
  let a := [("Accept", JStr "a"); ("X-Id", JNum 1)] in
  let b := [("accept", JStr "b")] in
  let merged := props_of (deepMerge (JObj a) (JObj b) true) in
  NoDup merged.*1 /\ "accept" ∈ merged.*1 /\ "x-id" ∈ merged.*1.
Proof.
  intros a b merged.
  destruct (merge_keys true a b) as [H1 H2].
  - reflexivity.
  - reflexivity.
  - split; [exact H1|]. split.
    + apply H2. right. by apply (bool_decide_unpack _).
    + apply H2. left. by apply (bool_decide_unpack _).
Defined.

(** The merge of configurations, read key by key. *)
Lemma lookup_mergeConfig a (b : Props) k :
  NoDup a.*1 -> NoDup b.*1 ->
  get_key (mergeConfig (JObj a) (JObj b)) k =
  match obj_lookup k b with
  | Some vb =>
      Some (if (obj_has k a && typeof_object vb)%bool
            then deepMerge (obj_get k a) vb (String.eqb k "headers")
            else vb)
  | None => obj_lookup k a
  end.
Proof.
  intros Ha Hb. rewrite mergeConfig_objects, deepMerge_eq. unfold get_key. simpl.
  rewrite lookup_merge_loop by (by rewrite fold_key_false_keys).
  rewrite find_key_false. unfold obj_has, obj_get.
  by rewrite !lookup_copy_props_false.
Qed.

(** On objects without a property named [__proto__]: keys the overrides
    do not name keep the value of the base; a key of the overrides that
    holds a scalar, or that the base does not have (and that is no member
    of [Object.prototype]), holds the value of the overrides. *)
Theorem mergeConfig_union a (b : Props) k :
  proto_free (JObj a) = true -> proto_free (JObj b) = true ->
  NoDup a.*1 -> NoDup b.*1 ->
  let merged := get_key (mergeConfig (JObj a) (JObj b)) k in
  (obj_lookup k b = None -> merged = obj_lookup k a) /\
  (forall vb, obj_lookup k b = Some vb -> typeof_object vb = false -> merged = Some vb) /\
  (forall vb, obj_lookup k b = Some vb -> obj_lookup k a = None -> inherited k = false ->
     merged = Some vb).
Proof.
  intros _ _ Ha Hb merged. unfold merged. rewrite lookup_mergeConfig by done.
  repeat split.
  - by intros ->.
  - intros vb -> Hv. by rewrite Hv, andb_false_r.
  - intros vb -> Hka Hinh. unfold obj_has. by rewrite Hka, Hinh.
Qed.

Lemma mergeConfig_union_witness :
  let a := [("baseURL", JStr "/api"); ("timeout", JNum 5)] in
  let b := [("timeout", JNum 9); ("params", JObj [("q", JStr "x")])] in
  get_key (mergeConfig (JObj a) (JObj b)) "baseURL" = Some (JStr "/api") /\
  get_key (mergeConfig (JObj a) (JObj b)) "timeout" = Some (JNum 9) /\
  get_key (mergeConfig (JObj a) (JObj b)) "params" = Some (JObj [("q", JStr "x")]).
Proof.
  intros a b.
  assert (NoDup a.*1) as Ha by (by apply (bool_decide_unpack _)).
  assert (NoDup b.*1) as Hb by (by apply (bool_decide_unpack _)).
  split; [|split].
  - exact (proj1 (mergeConfig_union a b "baseURL" eq_refl eq_refl Ha Hb) eq_refl).
  - exact (proj1 (proj2 (mergeConfig_union a b "timeout" eq_refl eq_refl Ha Hb))
             _ eq_refl eq_refl).
  - exact (proj2 (proj2 (mergeConfig_union a b "params" eq_refl eq_refl Ha Hb))
             _ eq_refl eq_refl eq_refl).
Defined.

(** A missing configuration ([undefined], [null], any falsy value) merges
    like the empty object.  Missing on the right, the other configuration
    (an object without a property named [__proto__]) is read back key by
    key; missing on the left, it is read back at every key that is no
    member of [Object.prototype]; two missing configurations give the empty
    object. *)
Theorem mergeConfig_missing a v v' k :
  proto_free (JObj a) = true ->
  NoDup a.*1 -> truthy v = false -> truthy v' = false ->
  get_key (mergeConfig (JObj a) v) k = obj_lookup k a /\
  (inherited k = false -> get_key (mergeConfig v (JObj a)) k = obj_lookup k a) /\
  mergeConfig v v' = JObj [].
Proof.
  intros _ Ha Hv Hv'.
  assert (mergeConfig (JObj a) v = mergeConfig (JObj a) (JObj [])) as ->
    by (unfold mergeConfig, jor; by rewrite Hv).
  assert (mergeConfig v (JObj a) = mergeConfig (JObj []) (JObj a)) as ->
    by (unfold mergeConfig, jor; by rewrite Hv).
  assert (mergeConfig v v' = JObj []) as ->
    by (unfold mergeConfig, jor; by rewrite Hv, Hv').
  split; [|split; [|done]].
  - by rewrite (lookup_mergeConfig a [] k Ha (NoDup_nil_2)).
  - intros Hinh. rewrite (lookup_mergeConfig [] a k (NoDup_nil_2) Ha).
    destruct (obj_lookup k a); [|done]. unfold obj_has. simpl. by rewrite Hinh.
Qed.

Lemma mergeConfig_missing_witness :
  get_key (mergeConfig (JObj [("url", JStr "/x")]) JUndefined) "url" = Some (JStr "/x").
Proof.
  refine (proj1 (mergeConfig_missing [("url", JStr "/x")] JUndefined JNull "url" _ _ _ _)).
  - reflexivity.
  - by apply (bool_decide_unpack _).
  - reflexivity.
  - reflexivity.
Defined.

Lemma obj_lookup_elem k v (ps : Props) : obj_lookup k ps = Some v -> (k, v) ∈ ps.
Proof.
  induction ps as [|[k1 v1] ps IH]; simpl; [done|].
  destruct (String.eqb_spec k1 k) as [->|Hne].
  - intros [= ->]. left.
  - intros H. right. by apply IH.
Qed.

Lemma lookup_mergeConfig_flat a (b : Props) k :
  NoDup a.*1 -> NoDup b.*1 -> flat b ->
  get_key (mergeConfig (JObj a) (JObj b)) k =
  match obj_lookup k b with
  | Some vb => Some vb
  | None => obj_lookup k a
  end.
Proof.
  intros Ha Hb Hflat. rewrite lookup_mergeConfig by done.
  destruct (obj_lookup k b) as [vb|] eqn:Hk; [|done].
  apply obj_lookup_elem in Hk. unfold flat in Hflat. rewrite Forall_forall in Hflat.
  specialize (Hflat _ Hk). simpl in Hflat. by rewrite Hflat, andb_false_r.
Qed.

Lemma mergeConfig_props a (b : Props) :
  mergeConfig (JObj a) (JObj b) = JObj (props_of (mergeConfig (JObj a) (JObj b))).
Proof. by rewrite mergeConfig_objects, deepMerge_eq. Qed.

Lemma mergeConfig_flat_is_flat a (b : Props) :
  NoDup a.*1 -> NoDup b.*1 -> flat a -> flat b ->
  flat (props_of (mergeConfig (JObj a) (JObj b))).
Proof.
  intros Ha Hb Hfa Hfb. unfold flat in *. rewrite Forall_forall in *.
  intros [k v] Hin.
  pose proof (NoDup_deepMerge false a b) as Hnd.
  rewrite <- mergeConfig_objects in Hnd.
  pose proof (obj_lookup_NoDup_elem k v _ Hnd Hin) as Hl.
  change (get_key (mergeConfig (JObj a) (JObj b)) k = Some v) in Hl.
  rewrite lookup_mergeConfig_flat in Hl by (done || by apply Forall_forall).
  destruct (obj_lookup k b) as [vb|] eqn:Hk.
  - injection Hl as <-. apply (Hfb _ (obj_lookup_elem _ _ _ Hk)).
  - apply (Hfa _ (obj_lookup_elem _ _ _ Hl)).
Qed.

(** Three levels of configuration without a property named [__proto__],
    the upper two flat, merge the same way in either grouping: the last
    level that names a key decides its value. *)
Theorem mergeConfig_assoc_flat a (b : Props) c k :
  proto_free (JObj a) = true -> proto_free (JObj b) = true ->
  proto_free (JObj c) = true ->
  NoDup a.*1 -> NoDup b.*1 -> NoDup c.*1 -> flat b -> flat c ->
  let left := get_key (mergeConfig (mergeConfig (JObj a) (JObj b)) (JObj c)) k in
  let right := get_key (mergeConfig (JObj a) (mergeConfig (JObj b) (JObj c))) k in
  left = right /\
  left = match obj_lookup k c, obj_lookup k b with
         | Some v, _ => Some v
         | None, Some v => Some v
         | None, None => obj_lookup k a
         end.
Proof.
  intros _ _ _ Ha Hb Hc Hfb Hfc left right.
  assert (left = match obj_lookup k c, obj_lookup k b with
                 | Some v, _ => Some v
                 | None, Some v => Some v
                 | None, None => obj_lookup k a
                 end) as Hleft.
  { unfold left. rewrite (mergeConfig_props a b).
    rewrite lookup_mergeConfig_flat; [|by apply (NoDup_deepMerge false a b)|done|done].
    destruct (obj_lookup k c); [done|].
    change (get_key (mergeConfig (JObj a) (JObj b)) k = match obj_lookup k b with
                                                       | Some v => Some v
                                                       | None => obj_lookup k a
                                                       end).
    by apply lookup_mergeConfig_flat. }
  split; [|done]. rewrite Hleft. unfold right. rewrite (mergeConfig_props b c).
  rewrite lookup_mergeConfig_flat;
    [|done|by apply (NoDup_deepMerge false b c)|by apply mergeConfig_flat_is_flat].
  change (obj_lookup k (props_of (mergeConfig (JObj b) (JObj c))))
    with (get_key (mergeConfig (JObj b) (JObj c)) k).
  rewrite lookup_mergeConfig_flat by done.
  by destruct (obj_lookup k c), (obj_lookup k b).
Qed.

Lemma mergeConfig_assoc_flat_witness :
  let a := [("timeout", JNum 1); ("baseURL", JStr "/a")] in
  let b := [("timeout", JNum 2)] in
  let c := [("url", JStr "/x")] in
  get_key (mergeConfig (mergeConfig (JObj a) (JObj b)) (JObj c)) "timeout"
  = get_key (mergeConfig (JObj a) (mergeConfig (JObj b) (JObj c))) "timeout".
Proof.
  intros a b c.
  refine (proj1 (mergeConfig_assoc_flat a b c "timeout" _ _ _ _ _ _ _ _)).
  - reflexivity.
  - reflexivity.
  - reflexivity.
  - by apply (bool_decide_unpack _).
  - by apply (bool_decide_unpack _).
  - by apply (bool_decide_unpack _).
  - by repeat constructor.
  - by repeat constructor.
Defined.

End MergeExtras.

(** ** Further properties of the orchestrator *)

Section OrchestratorExtras.

Variable call : string -> list JValue -> JValue.
Variable JSON_stringify : JValue -> JValue.
Variable JSON_parse : string -> option JValue.
Variable xsrf : JValue -> Props -> Props.
Variable resolve_url : JValue -> JValue -> Completion JValue.
Variables has_Request has_ReadableStream : bool.
Variable Request : Type.
Variable upload_request : JValue -> Axios.FetchOptions -> JValue -> JValue -> option Request.
Variable Number : option string -> option Z.
Variable invoke : Response -> string -> option (Settled JValue JValue).

Local Abbreviation dispatch :=
  (Axios.dispatch call JSON_stringify xsrf resolve_url has_Request has_ReadableStream
     Request upload_request).
Local Abbreviation assemble := (Axios.assemble JSON_parse has_ReadableStream Number invoke).
Local Abbreviation settle := (Axios.settle call JSON_parse has_ReadableStream Number invoke).

Lemma upper_ascii_idem c : upper_ascii (upper_ascii c) = upper_ascii c.
Proof. by destruct c as [[] [] [] [] [] [] [] []]. Qed.

Lemma toUpperCase_idem s : toUpperCase (toUpperCase s) = toUpperCase s.
Proof.
  unfold toUpperCase. induction s as [|c s IH]; simpl; [done|].
  by rewrite upper_ascii_idem, IH.
Qed.

(** The parts of a dispatch that went through. *)
Lemma dispatch_inv (defaults urlOrConfig config _method data _undefined : JValue)
    (d : Axios.Dispatch Request) :
  dispatch defaults urlOrConfig config _method data _undefined = Normal d ->
  exists data1 url m,
    Axios.transformed_data call (Axios.d_options _ d) data = Normal data1 /\
    Axios.effective_method (Axios.d_options _ d) _method = Normal m /\
    Axios.d_method _ d = m /\
    Axios.d_data _ d = fst (Axios.encoded JSON_stringify (Axios.d_options _ d) data1) /\
    let init :=
      {| Axios.method := m;
         Axios.fo_body := Axios.d_data _ d;
         Axios.fo_headers :=
           deepMerge (prop (Axios.d_options _ d) "headers")
             (JObj (xsrf (Axios.d_options _ d)
                      (snd (Axios.encoded JSON_stringify (Axios.d_options _ d) data1))))
             true;
         Axios.credentials := if truthy (prop (Axios.d_options _ d) "withCredentials")
                              then JStr "include" else _undefined;
         Axios.signal := prop (Axios.d_options _ d) "signal" |} in
    forall u i, Axios.d_call _ d = inr (u, i) -> u = url /\ i = init.
Proof.
  unfold Axios.dispatch. intros H.
  destruct (Axios.nullish urlOrConfig); [discriminate|].
  set (options := deepMerge defaults _ false) in *.
  destruct (Axios.transformed_data call options data) as [data1|] eqn:Hdata; [|discriminate].
  destruct (Axios.encoded JSON_stringify options data1) as [body customHeaders] eqn:Henc.
  destruct (resolve_url options _) as [url|]; [|discriminate].
  destruct (Axios.effective_method options _method) as [m|] eqn:Hm; [|discriminate].
  injection H as <-. simpl. exists data1, url, m. rewrite Henc. simpl.
  repeat split; try done.
  - destruct (_ && _ && _ && _)%bool; [destruct (upload_request _ _ _ _)|];
      congruence.
  - destruct (_ && _ && _ && _)%bool; [destruct (upload_request _ _ _ _)|];
      congruence.
Qed.

(** The verb of a shortcut wins over [options.method], and the method
    handed to the transport is upper-cased. *)
Theorem method_pinned (defaults urlOrConfig config data _undefined : JValue)
    (verb : string) (d : Axios.Dispatch Request) :
  dispatch defaults urlOrConfig config (JStr verb) data _undefined = Normal d ->
  verb <> "" ->
  Axios.d_method _ d = toUpperCase verb /\
  toUpperCase (Axios.d_method _ d) = Axios.d_method _ d /\
  forall u i, Axios.d_call _ d = inr (u, i) -> Axios.method i = toUpperCase verb.
Proof.
  intros H Hverb.
  destruct (dispatch_inv _ _ _ _ _ _ _ H) as (data1 & url & m & _ & Hm & Hdm & _ & Hcall).
  unfold Axios.effective_method, jor in Hm. simpl in Hm.
  rewrite (proj2 (String.eqb_neq _ _) Hverb) in Hm. simpl in Hm. injection Hm as <-.
  repeat split; [done| |].
  - rewrite Hdm. apply toUpperCase_idem.
  - intros u i Hi. destruct (Hcall u i Hi) as [_ ->]. done.
Qed.

(** Without a verb and without [options.method] the method is GET. *)
Theorem method_default (defaults urlOrConfig config data _undefined : JValue)
    (d : Axios.Dispatch Request) :
  dispatch defaults urlOrConfig config JUndefined data _undefined = Normal d ->
  truthy (prop (Axios.d_options _ d) "method") = false ->
  Axios.d_method _ d = "GET".
Proof.
  intros H Hm0.
  destruct (dispatch_inv _ _ _ _ _ _ _ H) as (data1 & url & m & _ & Hm & Hdm & _).
  unfold Axios.effective_method, jor in Hm. simpl in Hm. rewrite Hm0 in Hm.
  by injection Hm as <-.
Qed.

(** The headers handed to the transport, read at a lower-cased name that
    the custom headers [ch] set to a scalar [v]. *)
Lemma custom_header_wins (userHeaders : JValue) (ch : Props) (n : string) (v : JValue) :
  (forall l, userHeaders <> JArr l) ->
  NoDup (fold_key true <$> ch.*1) ->
  find_key true n ch = Some v -> typeof_object v = false ->
  get_key (deepMerge userHeaders (JObj ch) true) n = Some v.
Proof.
  intros Harr Hnd Hfind Hv. rewrite deepMerge_eq.
  destruct userHeaders; try (by destruct (Harr items));
    unfold get_key; simpl; rewrite lookup_merge_loop by done;
    by rewrite Hfind, Hv, andb_false_r.
Qed.

(** A plain object as data is sent as its JSON text, and the content type
    handed to the transport is [application/json] whatever content type the
    caller configured, in any casing (no XSRF cookie matching). *)
Theorem json_body_content_type
    (defaults urlOrConfig config _method data _undefined : JValue)
    (d : Axios.Dispatch Request) (ps : Props) :
  dispatch defaults urlOrConfig config _method data _undefined = Normal d ->
  Axios.transformed_data call (Axios.d_options _ d) data = Normal (JObj ps) ->
  Axios.is_function (obj_get "append" ps) = false ->
  Axios.is_function (obj_get "text" ps) = false ->
  (forall l, prop (Axios.d_options _ d) "headers" <> JArr l) ->
  (forall h, xsrf (Axios.d_options _ d) h = h) ->
  Axios.d_data _ d = JSON_stringify (JObj ps) /\
  forall u i, Axios.d_call _ d = inr (u, i) ->
    Axios.fo_body i = JSON_stringify (JObj ps) /\
    get_key (Axios.fo_headers i) "content-type" = Some (JStr "application/json").
Proof.
  intros H Hdata Happ Htext Harr Hxsrf.
  destruct (dispatch_inv _ _ _ _ _ _ _ H) as (data1 & url & m & Hd1 & _ & _ & Hdd & Hcall).
  rewrite Hdata in Hd1. injection Hd1 as <-.
  unfold Axios.encoded in Hdd, Hcall. simpl in Hdd, Hcall.
  rewrite Happ, Htext in Hdd, Hcall. simpl in Hdd, Hcall.
  split; [done|]. intros u i Hi. destruct (Hcall u i Hi) as [_ ->]. simpl.
  split; [done|]. rewrite Hxsrf.
  apply custom_header_wins; try done.
  - destruct (truthy (prop (Axios.d_options Request d) "auth"));
      by apply (bool_decide_unpack _).
  - by destruct (truthy (prop (Axios.d_options Request d) "auth")).
Qed.

(** A truthy scalar [auth] is sent as the [authorization] header, whatever
    authorization header the caller configured (no XSRF cookie matching). *)
Theorem auth_header
    (defaults urlOrConfig config _method data _undefined : JValue)
    (d : Axios.Dispatch Request) :
  dispatch defaults urlOrConfig config _method data _undefined = Normal d ->
  truthy (prop (Axios.d_options _ d) "auth") = true ->
  typeof_object (prop (Axios.d_options _ d) "auth") = false ->
  (forall l, prop (Axios.d_options _ d) "headers" <> JArr l) ->
  (forall h, xsrf (Axios.d_options _ d) h = h) ->
  forall u i, Axios.d_call _ d = inr (u, i) ->
    get_key (Axios.fo_headers i) "authorization" = Some (prop (Axios.d_options _ d) "auth").
Proof.
  intros H Hauth Hscalar Harr Hxsrf u i Hi.
  destruct (dispatch_inv _ _ _ _ _ _ _ H) as (data1 & url & m & _ & _ & _ & _ & Hcall).
  destruct (Hcall u i Hi) as [_ ->]. simpl. rewrite Hxsrf.
  unfold Axios.encoded. rewrite Hauth.
  apply custom_header_wins; try done.
  - destruct (_ && _ && _ && _)%bool; by apply (bool_decide_unpack _).
  - by destruct (_ && _ && _ && _)%bool.
Qed.


(** The [transformRequest] functions compose: a list run in two parts gives
    what the whole list gives, the second part starting from the data the
    first part left. *)
Theorem transform_all_app (fs gs : list JValue) (headers data : JValue) :
  Axios.transform_all call (fs ++ gs) headers data =
  match Axios.transform_all call fs headers data with
  | Normal data' => Axios.transform_all call gs headers data'
  | Throw e => Throw e
  end.
Proof.
  revert data. induction fs as [|f fs IH]; intros data; simpl; [done|].
  by destruct f.
Qed.

(** Transform functions whose results are falsy leave the data as it
    was: the data goes through a list of them unchanged. *)
Theorem transform_all_falsy (fs : list JValue) (headers data : JValue) :
  Forall (fun f => exists n, f = JFun n /\ truthy (call n [data; headers]) = false) fs ->
  Axios.transform_all call fs headers data = Normal data.
Proof.
  induction fs as [|f fs IH]; intros Hall; simpl; [done|].
  apply Forall_cons in Hall as [(n & -> & Hn) Hall].
  unfold jor. rewrite Hn. by apply IH.
Qed.

(** A rejection of the transport that is no abort is passed on unchanged,
    with nothing attached; a rejection with [null] or [undefined] becomes a
    [TypeError]. *)
Theorem network_error_passthrough (options config e : JValue) :
  Axios.is_abort (Axios.Value e) = false ->
  settle options config (Rejected e) =
  if Axios.nullish e then Rejected (Axios.Value Axios.TypeError)
  else Rejected (Axios.Value e).
Proof.
  intros Habort. unfold Axios.settle, Axios.catch_handler. rewrite Habort.
  by destruct e.
Qed.

(** [isCancel] is truthy exactly for a truthy value whose name is
    [AbortError], whose code is [ERR_CANCELED] or whose message is
    [canceled]; on a falsy value it returns that value, not [false]. *)
Theorem isCancel_spec (e : JValue) :
  (truthy (Axios.isCancel (Axios.Value e)) = true <->
   truthy e = true /\
   (prop e "name" = JStr "AbortError" \/ prop e "code" = JStr "ERR_CANCELED"
    \/ prop e "message" = JStr "canceled")) /\
  (truthy e = false -> Axios.isCancel (Axios.Value e) = e).
Proof.
  assert (Hstr : forall v lit, is_str v lit = true <-> v = JStr lit).
  { intros v lit. destruct v; simpl; try (split; [discriminate|by intros [=]]).
    split; [by intros ->%String.eqb_eq | by intros [= ->]; apply String.eqb_refl]. }
  unfold Axios.isCancel, Axios.and_prop_is, jor.
  destruct (truthy e) eqn:He; simpl.
  - split; [|discriminate]. rewrite <- !Hstr.
    destruct (is_str (prop e "name") "AbortError"),
             (is_str (prop e "code") "ERR_CANCELED"),
             (is_str (prop e "message") "canceled"); simpl; intuition discriminate.
  - rewrite !He. split; [|done]. split; [discriminate | by intros [? _]].
Qed.

(** An HTTP failure is an axios error and no cancellation: the error the
    call rejects with, when the status fails validation, satisfies
    [isAxiosError] and not [isCancel], and carries the response. *)
Theorem http_error_flags (options config : JValue) (res res1 : Response)
    (response : Axios.AxiosResponse) :
  assemble options config res = Axios.Ready res1 response ->
  Axios.validate call options res1 = Normal false ->
  exists err,
    settle options config (Resolved res) = Rejected (Axios.Error err) /\
    Axios.isAxiosError_of (Axios.Error err) = JBool true /\
    Axios.isCancel (Axios.Error err) = JBool false /\
    Axios.is_abort (Axios.Error err) = false /\
    Axios.response err = Some response.
Proof.
  intros Hready Hval.
  unfold Axios.settle, Axios.then_handler, Axios.classify. rewrite Hready, Hval.
  eexists. split; [reflexivity|]. by repeat split.
Qed.

(** With the response type ['stream'] the call resolves with the body
    stream as data, for every status, without decoding or validating. *)
Theorem stream_response (options config : JValue) (res : Response) :
  truthy (prop options "onDownloadProgress") = false ->
  prop options "responseType" = JStr "stream" ->
  settle options config (Resolved res)
  = Resolved (Axios.mkAxiosResponse config res (Axios.BodyStream (body res))).
Proof.
  intros Hcb Hrt. unfold Axios.settle, Axios.then_handler, Axios.assemble.
  by rewrite Hcb, Hrt.
Qed.

(** A decode that fails is not fatal: the response is classified all the
    same, with [data] left undefined. *)
Theorem decode_failure (options config : JValue) (res : Response)
    (name : string) (reason : JValue) (passes : bool) :
  truthy (prop options "onDownloadProgress") = false ->
  prop options "responseType" = JStr name -> name <> "" -> name <> "stream" ->
  invoke res name = Some (Rejected reason) ->
  Axios.validate call options res = Normal passes ->
  settle options config (Resolved res) =
  Axios.classify call options res (Axios.mkAxiosResponse config res (Axios.Val JUndefined)) /\
  (passes = true ->
   settle options config (Resolved res)
   = Resolved (Axios.mkAxiosResponse config res (Axios.Val JUndefined))).
Proof.
  intros Hcb Hrt Hne Hns Hinv Hval.
  assert (settle options config (Resolved res) =
          Axios.classify call options res
            (Axios.mkAxiosResponse config res (Axios.Val JUndefined))) as Hs.
  { unfold Axios.settle, Axios.then_handler, Axios.assemble.
    rewrite Hcb, Hrt. simpl. rewrite (proj2 (String.eqb_neq _ _) Hns).
    unfold jor. simpl. rewrite (proj2 (String.eqb_neq _ _) Hne). simpl.
    rewrite Hinv. simpl.
    unfold Axios.classify. rewrite Hval. by destruct passes. }
  split; [done|]. intros ->. rewrite Hs. unfold Axios.classify. by rewrite Hval.
Qed.

(** By default the body is read as text and parsed as JSON when it can
    be: without a response type, a text body that parses gives the parsed
    value as data, one that does not parse stays the text. *)
Theorem default_decoding (options config : JValue) (res : Response) (text : string) :
  truthy (prop options "onDownloadProgress") = false ->
  truthy (prop options "responseType") = false ->
  invoke res "text" = Some (Resolved (JStr text)) ->
  Axios.validate call options res = Normal true ->
  settle options config (Resolved res)
  = Resolved (Axios.mkAxiosResponse config res
                (Axios.Val (match JSON_parse text with
                            | Some parsed => parsed
                            | None => JStr text
                            end))).
Proof.
  intros Hcb Hrt Hinv Hval.
  unfold Axios.settle, Axios.then_handler, Axios.assemble.
  rewrite Hcb. simpl.
  assert (is_str (prop options "responseType") "stream" = false) as ->.
  { destruct (prop options "responseType"); try done. simpl in *.
    destruct (String.eqb_spec s "stream") as [->|]; [done|done]. }
  unfold jor. rewrite Hrt, Hinv. unfold Axios.classify. rewrite Hval.
  unfold Axios.decoded_data.
  assert (is_str (prop options "responseType") "text" = false) as ->; [|done].
  destruct (prop options "responseType"); try done. simpl in *.
  destruct (String.eqb_spec s "text") as [->|]; [done|done].
Qed.


End OrchestratorExtras.

Lemma method_pinned_witness :
  exists d,
    Axios.dispatch Demo.call Demo.JSON_stringify Demo.xsrf Demo.resolve_url
      true true unit Demo.upload_request
      (JObj []) (JStr "/items/7") (JObj [("method", JStr "post")])
      (JStr "delete") JUndefined JUndefined = Normal d /\
    Axios.d_method _ d = "DELETE".
Proof.
  eexists. split; [vm_compute; reflexivity|].
  refine (proj1 (method_pinned Demo.call Demo.JSON_stringify Demo.xsrf Demo.resolve_url
                   true true unit Demo.upload_request
                   (JObj []) (JStr "/items/7") (JObj [("method", JStr "post")])
                   JUndefined JUndefined "delete" _ _ _)).
  - reflexivity.
  - discriminate.
Defined.

Lemma json_body_content_type_witness :
  exists d u i,
    Axios.dispatch Demo.call Demo.JSON_stringify Demo.xsrf Demo.resolve_url
      false false unit Demo.upload_request
      (JObj [("headers", JObj [("Content-Type", JStr "text/plain")])])
      (JStr "/items") JUndefined (JStr "post") Demo.hello_world JUndefined = Normal d /\
    Axios.d_call _ d = inr (u, i) /\
    Axios.fo_body i = JStr Demo.jsonExample /\
    get_key (Axios.fo_headers i) "content-type" = Some (JStr "application/json").
Proof.
  do 3 eexists. split; [vm_compute; reflexivity|]. split; [reflexivity|].
  refine (proj2 (json_body_content_type Demo.call Demo.JSON_stringify Demo.xsrf
                   Demo.resolve_url false false unit Demo.upload_request
                   (JObj [("headers", JObj [("Content-Type", JStr "text/plain")])])
                   (JStr "/items") JUndefined (JStr "post") Demo.hello_world JUndefined
                   _ [("hello", JStr "world")] _ _ _ _ _ _) _ _ _).
  - reflexivity.
  - reflexivity.
  - reflexivity.
  - reflexivity.
  - intros l. discriminate.
  - reflexivity.
  - reflexivity.
Defined.

Lemma auth_header_witness :
  exists d u i,
    Axios.dispatch Demo.call Demo.JSON_stringify Demo.xsrf Demo.resolve_url
      false false unit Demo.upload_request
      (JObj [("auth", JStr "Bearer t")])
      (JStr "/items") (JObj [("headers", JObj [("Authorization", JStr "old")])])
      JUndefined JUndefined JUndefined = Normal d /\
    Axios.d_call _ d = inr (u, i) /\
    get_key (Axios.fo_headers i) "authorization" = Some (JStr "Bearer t").
Proof.
  destruct (Axios.dispatch Demo.call Demo.JSON_stringify Demo.xsrf Demo.resolve_url
      false false unit Demo.upload_request
      (JObj [("auth", JStr "Bearer t")])
      (JStr "/items") (JObj [("headers", JObj [("Authorization", JStr "old")])])
      JUndefined JUndefined JUndefined) as [d|] eqn:Hd; [|by vm_compute in Hd].
  pose proof (auth_header Demo.call Demo.JSON_stringify Demo.xsrf
            Demo.resolve_url false false unit Demo.upload_request
            (JObj [("auth", JStr "Bearer t")])
            (JStr "/items") (JObj [("headers", JObj [("Authorization", JStr "old")])])
            JUndefined JUndefined JUndefined d Hd) as H.
  vm_compute in Hd. injection Hd as <-.
  do 3 eexists. split; [reflexivity|]. split; [reflexivity|].
  eapply (H eq_refl eq_refl); [intros l; discriminate | reflexivity | reflexivity].
Defined.


Lemma transform_all_falsy_witness :
  Axios.transform_all Demo.call [JFun "noop"; JFun "log"] JUndefined (JStr "body")
  = Normal (JStr "body").
Proof.
  apply (transform_all_falsy Demo.call [JFun "noop"; JFun "log"] JUndefined (JStr "body")).
  repeat constructor; eexists; split; reflexivity.
Defined.

Lemma network_error_passthrough_witness :
  let e := JObj [("message", JStr "Network request failed")] in
  Axios.settle Demo.call Demo.JSON_parse true Demo.Number (Demo.invoke_text "")
    (JObj []) (JObj []) (Rejected e)
  = Rejected (Axios.Value e).
Proof.
  intros e.
  apply (network_error_passthrough Demo.call Demo.JSON_parse true Demo.Number
           (Demo.invoke_text "") (JObj []) (JObj []) e).
  reflexivity.
Defined.

Lemma http_error_flags_witness :
  let res := Demo.response_of 500 false in
  exists err,
    Axios.settle Demo.call Demo.JSON_parse true Demo.Number (Demo.invoke_text "oops")
      (JObj []) (JObj []) (Resolved res) = Rejected (Axios.Error err) /\
    Axios.isAxiosError_of (Axios.Error err) = JBool true /\
    Axios.isCancel (Axios.Error err) = JBool false.
Proof.
  intros res.
  destruct (http_error_flags Demo.call Demo.JSON_parse true Demo.Number
              (Demo.invoke_text "oops") (JObj []) (JObj []) res res
              (Axios.mkAxiosResponse (JObj []) res (Axios.Val (JStr "oops"))))
    as (err & H1 & H2 & H3 & _).
  - reflexivity.
  - reflexivity.
  - exists err. by repeat split.
Defined.

Lemma stream_response_witness :
  let res := Demo.response_of 404 false in
  Axios.settle Demo.call Demo.JSON_parse true Demo.Number (Demo.invoke_text "")
    (JObj [("responseType", JStr "stream")]) (JObj []) (Resolved res)
  = Resolved (Axios.mkAxiosResponse (JObj []) res (Axios.BodyStream None)).
Proof.
  intros res.
  apply (stream_response Demo.call Demo.JSON_parse true Demo.Number (Demo.invoke_text "")
           (JObj [("responseType", JStr "stream")]) (JObj []) res); reflexivity.
Defined.

Lemma decode_failure_witness :
  let res := Demo.response_of 200 true in
  Axios.settle Demo.call Demo.JSON_parse true Demo.Number Demo.invoke_rejecting
    (JObj [("responseType", JStr "json")]) (JObj []) (Resolved res)
  = Resolved (Axios.mkAxiosResponse (JObj []) res (Axios.Val JUndefined)).
Proof.
  intros res.
  refine (proj2 (decode_failure Demo.call Demo.JSON_parse true Demo.Number
                   Demo.invoke_rejecting (JObj [("responseType", JStr "json")]) (JObj [])
                   res "json" (JStr "SyntaxError") true _ _ _ _ _ _) _).
  - reflexivity.
  - reflexivity.
  - discriminate.
  - discriminate.
  - reflexivity.
  - reflexivity.
  - reflexivity.
Defined.

Lemma default_decoding_witness :
  let res := Demo.response_of 200 true in
  Axios.settle Demo.call Demo.JSON_parse true Demo.Number
    (Demo.invoke_text Demo.jsonExample) (JObj []) (JObj []) (Resolved res)
  = Resolved (Axios.mkAxiosResponse (JObj []) res (Axios.Val Demo.hello_world)).
Proof.
  intros res.
  apply (default_decoding Demo.call Demo.JSON_parse true Demo.Number
           (Demo.invoke_text Demo.jsonExample) (JObj []) (JObj []) res Demo.jsonExample);
    reflexivity.
Defined.


(** ** Further properties of the progress layer *)

Section ProgressExtras.

Variables (totalBytes : Z) (isUpload : bool).

Lemma toAxiosProgress_counts (loaded' bytes' now : Z) (h : Samples) (sp : Speedometer.State) :
  now <> 0 -> ring_inv 10 h sp ->
  exists sp' ev,
    Progress.toAxiosProgress loaded' totalBytes bytes' isUpload sp now = Some (sp', ev) /\
    ring_inv 10 (h ++ [(bytes', now)]) sp' /\
    counts ev = (loaded', bytes', (if 0 <? totalBytes then Some totalBytes else None),
                 (if 0 <? totalBytes then Some (div loaded' totalBytes) else None),
                 isUpload, negb isUpload, 0 <? totalBytes).
Proof.
  intros Hnow Hinv. unfold Progress.toAxiosProgress.
  destruct (push_ring 10 1000 h sp bytes' now) as (sp' & -> & Hinv'); [lia|done|done|].
  simpl. do 2 eexists. split; [reflexivity|]. split; [done|]. reflexivity.
Qed.

(** The delayed transform, from any state it can be in. *)
Lemma pipe_counts (chunks : list (Chunk * Z)) (end_time : Z) (st : Progress.State)
    (h : Samples) :
  ring_inv 10 h (Progress._speedometer st) ->
  Forall (fun c => snd c <> 0) chunks -> end_time <> 0 ->
  exists evs flushed,
    Progress.pipe totalBytes isUpload st chunks end_time = Some (chunks.*1, evs, flushed) /\
    counts <$> (evs ++ flushed)%list
    = expected_counts totalBytes isUpload (Progress.transferredBytes st)
        (pending_lens st ++ (byteLength <$> chunks.*1))%list /\
    length flushed = ((length (pending_lens st) + length chunks) `min` 1)%nat.
Proof.
  revert st h. induction chunks as [|[c now] chunks IH]; intros st h Hinv Hnz Hend.
  - simpl. unfold Progress.flush, pending_lens.
    destruct (Progress.previousChunk st) as [p|] eqn:Hp.
    + destruct (toAxiosProgress_counts (Progress.transferredBytes st + byteLength p)
                  (byteLength p) end_time h _ Hend Hinv) as (sp' & ev & -> & _ & Hc).
      simpl. exists [], [ev]. split; [done|]. split; [|done]. csimpl. by rewrite Hc.
    + simpl. by exists [], [].
  - apply Forall_cons in Hnz as [Hnow Hnz]. simpl in Hnow.
    cbn [Progress.pipe]. unfold Progress.transform, pending_lens.
    destruct (Progress.previousChunk st) as [p|] eqn:Hp.
    + cbv zeta.
      destruct (toAxiosProgress_counts (Progress.transferredBytes st + byteLength p)
                  (byteLength p) now h _ Hnow Hinv) as (sp' & ev & -> & Hinv' & Hc).
      simpl.
      destruct (IH (Progress.mkState (Some c) (Progress.transferredBytes st + byteLength p) sp')
                  _ Hinv' Hnz Hend) as (evs & flushed & -> & Hcs & Hlen).
      unfold pending_lens in Hcs, Hlen. csimpl in *.
      exists (ev :: evs), flushed. split; [done|]. split; [|lia].
      csimpl. by rewrite Hc, Hcs.
    + simpl.
      destruct (IH (Progress.mkState (Some c) (Progress.transferredBytes st)
                      (Progress._speedometer st)) _ Hinv Hnz Hend)
        as (evs & flushed & -> & Hcs & Hlen).
      unfold pending_lens in Hcs, Hlen. csimpl in *.
      exists evs, flushed. split; [done|]. split; [done|lia].
Qed.

(** Read to its end through [withProgress], a stream whose clock never
    reads 0 comes out chunk for chunk as it went in, and the callback gets
    one event per chunk, the last one from the flush: each carries the
    running total of bytes, the length of its chunk and, when the total is
    positive, the plain ratio of running total to total. *)
Theorem withProgress_counts (chunks : list (Chunk * Z)) (end_time : Z) :
  Forall (fun c => snd c <> 0) chunks -> end_time <> 0 ->
  exists evs flushed,
    Progress.pipe totalBytes isUpload Progress.init chunks end_time
      = Some (chunks.*1, evs, flushed) /\
    counts <$> (evs ++ flushed)%list
    = expected_counts totalBytes isUpload 0 (byteLength <$> chunks.*1) /\
    length flushed = (length chunks `min` 1)%nat.
Proof.
  intros Hnz Hend.
  destruct (pipe_counts chunks end_time Progress.init [] (ring_inv_init 10) Hnz Hend)
    as (evs & flushed & Hp & Hc & Hl).
  exists evs, flushed. split; [done|]. split; [done|]. by rewrite Hl.
Qed.

(** The immediate transform, from any state. *)
Lemma stream_pipe_counts (total : option Z) (chunks : list (Chunk * Z)) (st : Stream.State) :
  total = (if 0 <? totalBytes then Some totalBytes else None) ->
  exists evs,
    Stream.pipe total isUpload st chunks = (chunks.*1, evs) /\
    counts <$> evs
    = expected_counts totalBytes isUpload (Stream.st_loaded st) (byteLength <$> chunks.*1).
Proof.
  intros ->. revert st. induction chunks as [|[c now] chunks IH]; intros st.
  - by exists [].
  - cbn [Stream.pipe]. unfold Stream.transform.
    destruct (CreateSpeedometer.push _ _ _ _ _) as [speed' rate].
    destruct (IH (Stream.mkState (Stream.st_loaded st + byteLength c) speed'))
      as (evs & -> & Hc).
    eexists. split; [reflexivity|]. csimpl. rewrite Hc. f_equal.
    unfold counts, Stream.progressEvent. simpl.
    destruct (0 <? totalBytes) eqn:Hpos; simpl; by rewrite ?Hpos.
Qed.

Lemma stream_pipe_counts_out (total : option Z) (up : bool) (chunks : list (Chunk * Z))
    (st : Stream.State) :
  fst (Stream.pipe total up st chunks) = chunks.*1.
Proof.
  revert st. induction chunks as [|[c now] chunks IH]; intros st; [done|].
  cbn [Stream.pipe]. unfold Stream.transform.
  destruct (CreateSpeedometer.push _ _ _ _ _) as [speed' rate].
  specialize (IH (Stream.mkState (Stream.st_loaded st + byteLength c) speed')).
  destruct (Stream.pipe total up _ chunks) as [outs evs']. simpl in *. by rewrite IH.
Qed.

(** Read to its end through [wrapStream], a stream comes out chunk for
    chunk as it went in, and the callback gets one event per chunk, at once:
    running total, chunk length and, when the total is known and positive,
    the plain ratio. *)
Theorem wrapStream_counts (total : option Z) (chunks : list (Chunk * Z)) :
  total = (if 0 <? totalBytes then Some totalBytes else None) ->
  exists evs,
    Stream.pipe total isUpload Stream.init chunks = (chunks.*1, evs) /\
    counts <$> evs = expected_counts totalBytes isUpload 0 (byteLength <$> chunks.*1).
Proof. intros H. by apply stream_pipe_counts. Qed.

(** The two instrumentations hand the callback the same counts, chunk for
    chunk; the delayed one reports each chunk when the next one, or the end,
    arrives. *)
Theorem instrumentations_agree (total : option Z) (chunks : list (Chunk * Z))
    (end_time : Z) :
  Forall (fun c => snd c <> 0) chunks -> end_time <> 0 ->
  total = (if 0 <? totalBytes then Some totalBytes else None) ->
  exists out evs flushed evs',
    Progress.pipe totalBytes isUpload Progress.init chunks end_time
      = Some (out, evs, flushed) /\
    Stream.pipe total isUpload Stream.init chunks = (out, evs') /\
    counts <$> (evs ++ flushed)%list = counts <$> evs'.
Proof.
  intros Hnz Hend Htotal.
  destruct (pipe_counts chunks end_time Progress.init [] (ring_inv_init 10) Hnz Hend)
    as (evs & flushed & Hp & Hc & _).
  destruct (stream_pipe_counts total chunks Stream.init Htotal) as (evs' & Hp' & Hc').
  exists chunks.*1, evs, flushed, evs'. repeat split; try done.
  by rewrite Hc, Hc'.
Qed.

Lemma div_in_unit (l t : Z) : 0 <= l <= t -> 0 < t -> (0 <= div l t)%Q /\ (div l t <= 1)%Q.
Proof.
  intros [Hl Hlt] Ht. unfold div.
  assert (0 < inject_Z t)%Q as Htq by (by rewrite <- (Zlt_Qlt 0)).
  split.
  - apply Qle_shift_div_l; [done|]. rewrite Qmult_0_l. by rewrite <- (Zle_Qle 0).
  - apply Qle_shift_div_r; [done|]. rewrite Qmult_1_l. by rewrite <- Zle_Qle.
Qed.

Lemma expected_in_unit (up : bool) (acc : Z) (lens : list Z) :
  0 < totalBytes -> 0 <= acc -> Forall (fun x => 0 <= x) lens ->
  acc + sum_list lens <= totalBytes ->
  Forall in_unit (expected_counts totalBytes up acc lens).
Proof.
  intros Ht. revert acc. induction lens as [|x lens IH]; intros acc Hacc Hpos Hsum; simpl.
  - constructor.
  - apply Forall_cons in Hpos as [Hx Hpos]. unfold sum_list in *. simpl in Hsum.
    assert (0 <= sum_list lens) as Hs.
    { clear -Hpos. unfold sum_list. induction Hpos; simpl; lia. }
    unfold sum_list in Hs. constructor.
    + unfold in_unit. rewrite (proj2 (Z.ltb_lt _ _) Ht). eexists. split; [done|].
      apply div_in_unit; lia.
    + apply IH; [lia|done|lia].
Qed.

Lemma bytes_of_sum_list (chunks : list (Chunk * Z)) :
  bytes_of chunks = sum_list (byteLength <$> chunks.*1).
Proof.
  unfold bytes_of, sum_list. induction chunks as [|[c t] chunks IH]; csimpl; [done|].
  by rewrite IH.
Qed.

(** When the stream carries no more bytes than the positive total, every
    event of [withProgress], the one of the flush included, carries a ratio,
    and it lies between 0 and 1. *)
Theorem ratio_within_unit (chunks : list (Chunk * Z)) (end_time : Z) :
  Forall (fun c => snd c <> 0) chunks -> end_time <> 0 ->
  0 < totalBytes -> bytes_of chunks <= totalBytes ->
  exists evs flushed,
    Progress.pipe totalBytes isUpload Progress.init chunks end_time
      = Some (chunks.*1, evs, flushed) /\
    Forall (fun ev => exists q, progress ev = Some q /\ (0 <= q)%Q /\ (q <= 1)%Q)
      (evs ++ flushed)%list.
Proof.
  intros Hnz Hend Ht Hsum.
  destruct (pipe_counts chunks end_time Progress.init [] (ring_inv_init 10) Hnz Hend)
    as (evs & flushed & Hp & Hc & _).
  exists evs, flushed. split; [done|].
  assert (Forall in_unit (counts <$> (evs ++ flushed)%list)) as Hall.
  { rewrite Hc. change (pending_lens Progress.init) with (@nil Z).
    change (Progress.transferredBytes Progress.init) with 0. rewrite app_nil_l.
    apply expected_in_unit; [done|done| |].
    - apply Forall_fmap, Forall_forall. intros c _. unfold byteLength. simpl. lia.
    - rewrite <- bytes_of_sum_list. lia. }
  rewrite Forall_fmap in Hall. eapply Forall_impl; [exact Hall|].
  intros ev Hev. exact Hev.
Qed.

Lemma indexed_clock_fst (clock : nat -> Z) (n : nat) (cs : list Chunk) :
  (indexed_clock clock n cs).*1 = cs.
Proof. revert n. induction cs as [|c cs IH]; intros n; csimpl; [done|]. by rewrite IH. Qed.

Lemma indexed_clock_nonzero (clock : nat -> Z) (n : nat) (cs : list Chunk) :
  (forall i, clock i <> 0) -> Forall (fun c => snd c <> 0) (indexed_clock clock n cs).
Proof.
  intros Hclock. revert n. induction cs as [|c cs IH]; intros n; simpl; constructor.
  - apply Hclock.
  - apply IH.
Qed.

End ProgressExtras.

(** Whatever instruments are piped onto a stream, delayed or immediate,
    with any totals and callbacks, reading it to its end gives the chunks of
    the source, in order and unchanged (the clock never reading 0). *)
Theorem consume_passes_chunks (clock : nat -> Z) (s : ByteStream) :
  (forall i, clock i <> 0) ->
  exists evs, consume clock s = Some (source_chunks s, evs).
Proof.
  intros Hclock. induction s as [cs|s IH t]; simpl.
  - by eexists.
  - destruct IH as (evs & ->). simpl. destruct t as [totalBytes cb up|total cb up].
    + destruct (pipe_counts totalBytes up (indexed_clock clock 0 (source_chunks s))
                  (clock (length (source_chunks s))) Progress.init []
                  (ring_inv_init 10) (indexed_clock_nonzero clock 0 _ Hclock) (Hclock _))
        as (evs1 & flushed & -> & _).
      simpl. rewrite indexed_clock_fst. by eexists.
    + destruct (Stream.pipe total up Stream.init
                  (indexed_clock clock 0 (source_chunks s))) as [out evs1] eqn:Hp.
      pose proof (stream_pipe_counts_out total up (indexed_clock clock 0 (source_chunks s))
                    Stream.init) as Hout.
      rewrite Hp in Hout. simpl in Hout. rewrite Hout, indexed_clock_fst. by eexists.
Qed.


Lemma withProgress_counts_witness :
  let chunks := [(chunk_of 4, 100); (chunk_of 6, 250)] in
  exists evs flushed,
    Progress.pipe 10 false Progress.init chunks 400 = Some (chunks.*1, evs, flushed) /\
    counts <$> (evs ++ flushed)%list
    = expected_counts 10 false 0 (byteLength <$> chunks.*1) /\
    length flushed = 1%nat.
Proof.
  intros chunks.
  refine (withProgress_counts 10 false chunks 400 _ _).
  - repeat constructor; simpl; lia.
  - lia.
Defined.

Lemma wrapStream_counts_witness :
  let chunks := [(chunk_of 4, 100); (chunk_of 6, 250)] in
  exists evs,
    Stream.pipe (Some 10) true Stream.init chunks = (chunks.*1, evs) /\
    counts <$> evs = expected_counts 10 true 0 (byteLength <$> chunks.*1).
Proof.
  intros chunks.
  refine (wrapStream_counts 10 true (Some 10) chunks _).
  reflexivity.
Defined.

Lemma instrumentations_agree_witness :
  let chunks := [(chunk_of 4, 100); (chunk_of 6, 250)] in
  exists out evs flushed evs',
    Progress.pipe 10 false Progress.init chunks 400 = Some (out, evs, flushed) /\
    Stream.pipe (Some 10) false Stream.init chunks = (out, evs') /\
    counts <$> (evs ++ flushed)%list = counts <$> evs'.
Proof.
  intros chunks.
  refine (instrumentations_agree 10 false (Some 10) chunks 400 _ _ _).
  - repeat constructor; simpl; lia.
  - lia.
  - reflexivity.
Defined.

Lemma ratio_within_unit_witness :
  let chunks := [(chunk_of 4, 100); (chunk_of 6, 250)] in
  exists evs flushed,
    Progress.pipe 10 false Progress.init chunks 400 = Some (chunks.*1, evs, flushed) /\
    Forall (fun ev => exists q, progress ev = Some q /\ (0 <= q)%Q /\ (q <= 1)%Q)
      (evs ++ flushed)%list.
Proof.
  intros chunks.
  refine (ratio_within_unit 10 false chunks 400 _ _ _ _).
  - repeat constructor; simpl; lia.
  - lia.
  - lia.
  - vm_compute. discriminate.
Defined.

Lemma consume_passes_chunks_witness :
  let s := PipeThrough
             (PipeThrough (Source [chunk_of 4; chunk_of 6])
                (WithProgress 10 (JFun "onDownloadProgress") false))
             (WrapStream None (JFun "report") false) in
  exists evs, consume (fun i => Z.of_nat i + 1) s = Some ([chunk_of 4; chunk_of 6], evs).
Proof.
  intros s.
  refine (consume_passes_chunks (fun i => Z.of_nat i + 1) s _).
  intros i. lia.
Defined.

(** ** Download progress, from the wrapper to the reader *)

Section ResponseExtras.

Variable Number : option string -> option Z.

Lemma length_expected_counts (t : Z) (up : bool) (acc : Z) (lens : list Z) :
  length (expected_counts t up acc lens) = length lens.
Proof. revert acc. induction lens as [|x lens IH]; intros acc; simpl; [done|]. by rewrite IH. Qed.

Lemma fst_map_pair (cb : JValue) (evs : list ProgressEvent) :
  (map (pair cb) evs).*1 = replicate (length evs) cb.
Proof. induction evs as [|e evs IH]; csimpl; [done|]. by rewrite IH. Qed.

Lemma snd_map_pair (cb : JValue) (evs : list ProgressEvent) :
  (map (pair cb) evs).*2 = evs.
Proof. induction evs as [|e evs IH]; csimpl; [done|]. by rewrite IH. Qed.

(** Reading the instrumented body of a source of chunks. *)
Lemma consume_withProgress (clock : nat -> Z) (cs : list Chunk) (t : Z) (cb : JValue)
    (up : bool) :
  (forall i, clock i <> 0) ->
  exists evs,
    consume clock (PipeThrough (Source cs) (WithProgress t cb up)) = Some (cs, evs) /\
    evs.*1 = replicate (length cs) cb /\
    counts <$> evs.*2 = expected_counts t up 0 (byteLength <$> cs).
Proof.
  intros Hclock. simpl.
  destruct (pipe_counts t up (indexed_clock clock 0 cs) (clock (length cs)) Progress.init []
              (ring_inv_init 10) (indexed_clock_nonzero clock 0 cs Hclock) (Hclock _))
    as (evs1 & flushed & -> & Hc & _).
  change (pending_lens Progress.init) with (@nil Z) in Hc.
  change (Progress.transferredBytes Progress.init) with 0 in Hc.
  rewrite app_nil_l, indexed_clock_fst in Hc.
  simpl. rewrite indexed_clock_fst. eexists. split; [reflexivity|].
  rewrite fst_map_pair, snd_map_pair. split; [|done].
  f_equal. apply (f_equal length) in Hc.
  by rewrite length_fmap, length_expected_counts, length_fmap in Hc.
Qed.

Lemma wrap_instrumented (r : Response) (cb : JValue) (s0 : ByteStream) (h : Headers) :
  body r = Some s0 -> truthy cb = true -> headers r = Some h ->
  200 <= status r <= 599 -> null_body_status (status r) = false ->
  let r' := {| status := status r; statusText := statusText r;
               headers := Some h;
               body := Some (PipeThrough s0
                               (WithProgress (content_length_total Number h) cb false));
               ok := (200 <=? status r) && (status r <=? 299);
               url := ""; redirected := false; type := "default" |} in
  streamResponse Number r cb = Normal r' /\
  wrapResponseWithProgress Number r cb = Normal r'.
Proof.
  intros Hbody Hcb Hh Hrange Hnull.
  assert ((status r =? 204) = false) as H204.
  { unfold null_body_status in Hnull. simpl in Hnull.
    destruct (status r =? 204); [|done]. by rewrite !orb_true_r in Hnull. }
  unfold streamResponse, wrapResponseWithProgress, withProgress, wrapStreamWithProgress,
    new_Response.
  rewrite Hbody, Hcb, H204, Hh. simpl. rewrite Hnull.
  assert ((status r <? 200) = false) as -> by lia.
  assert ((599 <? status r) = false) as -> by lia.
  done.
Qed.

(** A response with headers, a body and a status that allows one, wrapped
    for download progress, keeps its status, status text and headers; a
    reader of the new body gets the chunks of the original one, and the
    callback, and nothing else, gets one event per chunk with the running
    byte count and, against a positive content length, the ratio.  Both
    copies of the wrapper do the same.  Without headers both throw. *)
Theorem download_progress_delivery (r : Response) (cb : JValue) (cs : list Chunk)
    (clock : nat -> Z) (h : Headers) :
  body r = Some (Source cs) -> truthy cb = true ->
  200 <= status r <= 599 -> null_body_status (status r) = false ->
  (forall i, clock i <> 0) ->
  (headers r = Some h ->
   exists r' s evs,
     streamResponse Number r cb = Normal r' /\
     wrapResponseWithProgress Number r cb = Normal r' /\
     status r' = status r /\ statusText r' = statusText r /\
     headers r' = Some h /\
     body r' = Some s /\
     consume clock s = Some (cs, evs) /\
     evs.*1 = replicate (length cs) cb /\
     counts <$> evs.*2
     = expected_counts (content_length_total Number h) false 0 (byteLength <$> cs)) /\
  (headers r = None ->
   streamResponse Number r cb = Throw TypeError_of_undefined /\
   wrapResponseWithProgress Number r cb = Throw TypeError_of_undefined).
Proof.
  intros Hbody Hcb Hrange Hnull Hclock. split.
  - intros Hh.
    destruct (wrap_instrumented r cb _ h Hbody Hcb Hh Hrange Hnull) as [H1 H2].
    destruct (consume_withProgress clock cs (content_length_total Number h) cb false
                Hclock) as (evs & Hcons & Hto & Hc).
    do 3 eexists. split; [exact H1|]. split; [exact H2|]. simpl.
    split; [done|]. split; [done|]. split; [done|]. split; [reflexivity|]. done.
  - intros Hh.
    assert ((status r =? 204) = false) as H204.
    { unfold null_body_status in Hnull. simpl in Hnull.
      destruct (status r =? 204); [|done]. by rewrite !orb_true_r in Hnull. }
    unfold streamResponse, wrapResponseWithProgress.
    by rewrite Hbody, Hcb, H204, Hh.
Qed.

End ResponseExtras.

(** ** Further properties of the speedometers *)

Section SpeedExtras.

Lemma Math_round_nonneg (a p : Z) : 0 <= a -> 0 < p -> 0 <= Math_round (div a p).
Proof.
  intros Ha Hp. unfold Math_round.
  change 0 with (Qfloor 0). apply Qfloor_resp_le.
  assert (0 <= div a p)%Q as Hq.
  { unfold div. apply Qle_shift_div_l.
    - by rewrite <- (Zlt_Qlt 0).
    - rewrite Qmult_0_l. by rewrite <- (Zle_Qle 0). }
  apply (Qle_trans _ (div a p)); [done|].
  rewrite <- (Qplus_0_r (div a p)) at 1. apply Qplus_le_r. done.
Qed.

Lemma bytes_sum_nonneg (l : Samples) : Forall (fun p => 0 <= fst p) l -> 0 <= bytes_sum l.
Proof. unfold bytes_sum. induction 1; simpl; lia. Qed.

Lemma Forall_window {P : Z * Z -> Prop} (m : nat) (l : Samples) :
  Forall P l -> Forall P (window m l).
Proof. unfold window. apply Forall_drop. Qed.

Lemma list_run_window (samples : nat) (minTime : Z) (h pushes : Samples) :
  list_run samples minTime (window samples h) pushes
  = (window samples (h ++ pushes), list_rates samples minTime h pushes).
Proof.
  revert h. induction pushes as [|[b t] pushes IH]; intros h; simpl.
  - by rewrite app_nil_r.
  - rewrite push_list. rewrite IH. by rewrite <- app_assoc.
Qed.

(** However many samples are pushed, the list speedometer keeps no more
    than [samples] of them: the last ones. *)
Theorem list_speedometer_bounded (samples : nat) (minTime : Z) (pushes : Samples) :
  fst (list_run samples minTime [] pushes) = window samples pushes /\
  length (fst (list_run samples minTime [] pushes)) = (length pushes `min` samples)%nat.
Proof.
  pose proof (list_run_window samples minTime [] pushes) as H.
  change (window samples []) with (@nil (Z * Z)) in H. rewrite H. simpl.
  split; [done|]. unfold window. rewrite length_drop. lia.
Qed.

Lemma list_rate_nonneg (samples : nat) (minTime : Z) (h : Samples) (b t n : Z) :
  Forall (fun p => 0 <= fst p) h -> 0 <= b ->
  list_rate samples minTime h b t = Some n -> 0 <= n.
Proof.
  intros Hh Hb. unfold list_rate.
  assert (Forall (fun p => 0 <= fst p) (window samples (h ++ [(b, t)]))) as Hw.
  { apply Forall_window, Forall_app. split; [done|]. by repeat constructor. }
  destruct (window samples (h ++ [(b, t)])) as [|x w]; [done|].
  destruct (_ <? minTime); [done|].
  destruct (Z.ltb_spec 0 (t - oldest_ts (x :: w) t)) as [Hpos|]; [|done].
  intros [= <-]. apply Math_round_nonneg; [|done].
  pose proof (bytes_sum_nonneg _ Hw) as Hsum. unfold bytes_sum in Hsum. simpl in Hsum.
  unfold bytes_sum. lia.
Qed.

(** With chunk lengths that are not negative, the list speedometer never
    returns a negative rate, whatever the clock does. *)
Theorem list_speedometer_nonneg (samples : nat) (minTime : Z) (pushes : Samples) :
  Forall (fun p => 0 <= fst p) pushes ->
  Forall (fun r => forall n, r = Some n -> 0 <= n)
    (snd (list_run samples minTime [] pushes)).
Proof.
  intros Hp.
  pose proof (list_run_window samples minTime [] pushes) as H.
  change (window samples []) with (@nil (Z * Z)) in H. rewrite H. simpl. clear H.
  assert (Forall (fun p : Z * Z => 0 <= fst p) []) as Hh by constructor.
  revert Hh. generalize (@nil (Z * Z)) as h.
  induction Hp as [|[b t] pushes Hb Hp IH]; intros h Hh; constructor.
  - intros n. by apply list_rate_nonneg.
  - apply IH. apply Forall_app. split; [done|]. by repeat constructor.
Qed.

Lemma oldest_ts_bound (l : Samples) (d t : Z) :
  Forall (fun p => snd p <= t) l -> d <= t -> oldest_ts l d <= t.
Proof. intros Hl Hd. destruct Hl; simpl; done. Qed.

Lemma ring_rates_ok (N : nat) (min : Z) (h pushes : Samples) :
  Forall (fun p => 0 <= fst p) h ->
  Forall (fun p => 0 <= fst p) pushes ->
  StronglySorted Z.le (snd <$> (h ++ pushes)%list) ->
  Forall rate_ok (ring_rates N min h pushes).
Proof.
  revert h. induction pushes as [|[b t] pushes IH]; intros h Hh Hp Hs; simpl; [constructor|].
  apply Forall_cons in Hp as [Hb Hp]. simpl in Hb. constructor.
  - unfold ring_rate. destruct (_ <? min); [done|].
    assert (Forall (fun p => snd p <= t) (h ++ [(b, t)])%list) as Hle.
    { apply Forall_app. split; [|by repeat constructor; simpl; lia].
      rewrite fmap_app in Hs. clear -Hs. induction h as [|x h IH]; [constructor|].
      csimpl in Hs. apply StronglySorted_inv in Hs as [Hs Hx]. constructor.
      - rewrite Forall_app in Hx. destruct Hx as [_ Hx]. csimpl in Hx.
        by apply Forall_cons in Hx as [? _].
      - by apply IH. }
    pose proof (oldest_ts_bound _ t t (Forall_window (N - 1) _ Hle) (Z.le_refl t)) as Hold.
    destruct (Z.eqb_spec (t - oldest_ts (window (N - 1) (h ++ [(b, t)])) t) 0) as [|Hne];
      [done|].
    simpl. apply Math_round_nonneg; [|lia].
    pose proof (bytes_sum_nonneg _ (Forall_window (N - 1) _ Hh)). lia.
  - apply IH; [|done|by rewrite <- app_assoc].
    apply Forall_app. split; [done|]. by repeat constructor.
Qed.

(** On a clock that never reads 0 and never goes back, with chunk lengths
    that are not negative, every push of the ring speedometer returns, and
    what it returns is [undefined] or a number that is not negative: never
    [NaN]. *)
Theorem ring_speedometer_nonneg (N : nat) (min : Z) (pushes : Samples) :
  (2 <= N)%nat ->
  Forall (fun p => snd p <> 0) pushes ->
  Forall (fun p => 0 <= fst p) pushes ->
  StronglySorted Z.le (snd <$> pushes) ->
  exists st rates,
    Speedometer.run N min Speedometer.init pushes = Some (st, rates) /\
    length rates = length pushes /\
    Forall rate_ok rates.
Proof.
  intros HN Hnz Hp Hs.
  destruct (run_ring N min pushes [] Speedometer.init HN Hnz (ring_inv_init N))
    as (st & Hrun & _).
  exists st, (ring_rates N min [] pushes). split; [done|]. split.
  - generalize (@nil (Z * Z)) as h. clear. induction pushes as [|[b t] pushes IH];
      intros h; simpl; [done|]. by rewrite IH.
  - apply ring_rates_ok; [constructor|done|done].
Qed.

End SpeedExtras.

Lemma list_speedometer_nonneg_witness :
  Forall (fun r => forall n, r = Some n -> 0 <= n)
    (snd (list_run 2 0 [] [(100, 1000); (200, 500); (50, 2000)])).
Proof.
  refine (list_speedometer_nonneg 2 0 [(100, 1000); (200, 500); (50, 2000)] _).
  repeat constructor; simpl; lia.
Defined.

Lemma ring_speedometer_nonneg_witness :
  exists st rates,
    Speedometer.run 3 0 Speedometer.init [(1, 10); (2, 20); (4, 40); (8, 80)]
      = Some (st, rates) /\
    length rates = 4%nat /\
    Forall rate_ok rates.
Proof.
  refine (ring_speedometer_nonneg 3 0 [(1, 10); (2, 20); (4, 40); (8, 80)] _ _ _ _).
  - lia.
  - repeat constructor; simpl; lia.
  - repeat constructor; simpl; lia.
  - repeat constructor; simpl; lia.
Defined.

(** ** Download progress and response headers through the orchestrator *)

Section DownloadExtras.

Variable call : string -> list JValue -> JValue.
Variable JSON_parse : string -> option JValue.
Variable Number : option string -> option Z.
Variable invoke : Response -> string -> option (Settled JValue JValue).

Local Abbreviation settle := (Axios.settle call JSON_parse true Number invoke).

(** A call with [onDownloadProgress] and the response type ['stream'], on
    a platform with streams, the transport's response having headers, a
    body and a status that allows one: whether or not the status is a
    success (no validation happens), the call resolves with a stream as
    data; reading it gives the chunks of the transport's body and makes the
    callback receive one event per chunk.  The response handed back is a new
    one: its [url] is empty.  When the transport's response has no headers,
    the call rejects with the [TypeError] of the wrapper. *)
Theorem download_progress_streamed (options config : JValue) (res : Response)
    (cs : list Chunk) (clock : nat -> Z) (h : Headers) :
  truthy (prop options "onDownloadProgress") = true ->
  prop options "responseType" = JStr "stream" ->
  body res = Some (Source cs) ->
  200 <= status res <= 599 -> null_body_status (status res) = false ->
  (forall i, clock i <> 0) ->
  (headers res = Some h ->
   exists response s evs,
     settle options config (Resolved res) = Resolved response /\
     Axios.config response = config /\
     Axios.data response = Axios.BodyStream (Some s) /\
     status (Axios.copied response) = status res /\
     url (Axios.copied response) = "" /\
     consume clock s = Some (cs, evs) /\
     evs.*1 = replicate (length cs) (prop options "onDownloadProgress") /\
     counts <$> evs.*2
     = expected_counts (content_length_total Number h) false 0 (byteLength <$> cs)) /\
  (headers res = None ->
   settle options config (Resolved res)
   = Rejected (Axios.Value TypeError_of_undefined)).
Proof.
  intros Hcb Hrt Hbody Hrange Hnull Hclock. split.
  - intros Hh.
    destruct (wrap_instrumented Number res _ _ h Hbody Hcb Hh Hrange Hnull) as [_ Hwrap].
    destruct (consume_withProgress clock cs (content_length_total Number h)
                (prop options "onDownloadProgress") false Hclock)
      as (evs & Hcons & Hto & Hc).
    unfold Axios.settle, Axios.then_handler, Axios.assemble.
    rewrite Hcb, Hrt. cbn [andb]. rewrite Hwrap. simpl.
    do 3 eexists. split; [reflexivity|]. simpl. by repeat split.
  - intros Hh.
    assert ((status res =? 204) = false) as H204.
    { unfold null_body_status in Hnull. simpl in Hnull.
      destruct (status res =? 204); [|done]. by rewrite !orb_true_r in Hnull. }
    unfold Axios.settle, Axios.then_handler, Axios.assemble, wrapResponseWithProgress.
    rewrite Hcb, Hbody. cbn [andb negb]. rewrite H204, Hh. reflexivity.
Qed.

Lemma headers_get_lower (h : Headers) (name : string) :
  headers_get h (toLowerCase name) = headers_get h name.
Proof.
  induction h as [|[n v] h IH]; simpl; [done|].
  by rewrite toLowerCase_idem, IH.
Qed.

(** Reading a header as a property of [response.headers], under a valid
    header name that is not one of the six methods, gives what [get] gives:
    the second lookup under the lower-cased name never changes the result,
    and names that differ only in case read the same header. *)
Theorem header_property_lookup (r : Axios.AxiosResponse) (h : Headers) (name : string) :
  headers (Axios.copied r) = Some h ->
  valid_header_name name = true ->
  existsb (String.eqb name) Axios.header_methods = false ->
  Axios.response_header r name = headers_get h name /\
  forall name', toLowerCase name' = toLowerCase name ->
    valid_header_name name' = true ->
    existsb (String.eqb name') Axios.header_methods = false ->
    Axios.response_header r name' = Axios.response_header r name.
Proof.
  intros Hh _ Hm.
  assert (forall n, existsb (String.eqb n) Axios.header_methods = false ->
                    Axios.response_header r n = headers_get h n) as Hget.
  { intros n Hn. unfold Axios.response_header. rewrite Hh, Hn.
    rewrite headers_get_lower. destruct (headers_get h n) as [v|] eqn:Hv; [|done].
    destruct (String.eqb_spec v "") as [->|]; done. }
  split; [by apply Hget|]. intros name' Hlow _ Hm'.
  rewrite !Hget by done.
  by rewrite <- (headers_get_lower h name'), Hlow, headers_get_lower.
Qed.

End DownloadExtras.

Lemma download_progress_streamed_witness :
  let res := {| status := 404; statusText := "Not Found";
                headers := Some [("content-length", "10")];
                body := Some (Source [chunk_of 4; chunk_of 6]); ok := false;
                url := "http://host/items"; redirected := false; type := "basic" |} in
  let options := JObj [("onDownloadProgress", JFun "report");
                       ("responseType", JStr "stream")] in
  exists response s evs,
    Axios.settle Demo.call Demo.JSON_parse true (fun _ => Some 10) (Demo.invoke_text "")
      options (JObj []) (Resolved res) = Resolved response /\
    Axios.data response = Axios.BodyStream (Some s) /\
    url (Axios.copied response) = "" /\
    consume (fun i => Z.of_nat i + 1) s = Some ([chunk_of 4; chunk_of 6], evs) /\
    evs.*1 = [JFun "report"; JFun "report"] /\
    counts <$> evs.*2 = expected_counts 10 false 0 [4; 6].
Proof.
  intros res options.
  destruct (download_progress_streamed Demo.call Demo.JSON_parse (fun _ => Some 10)
              (Demo.invoke_text "") options (JObj []) res [chunk_of 4; chunk_of 6]
              (fun i => Z.of_nat i + 1) [("content-length", "10")])
    as [H _].
  - reflexivity.
  - reflexivity.
  - reflexivity.
  - simpl. lia.
  - reflexivity.
  - intros i. lia.
  - destruct (H eq_refl) as (response & s & evs & H1 & _ & H3 & _ & H5 & H6 & H7 & H8).
    exists response, s, evs. by repeat split.
Defined.

Lemma header_property_lookup_witness :
  let res := {| status := 200; statusText := "OK";
                headers := Some [("content-type", "text/plain")];
                body := None; ok := true; url := "/items"; redirected := false;
                type := "basic" |} in
  let r := Axios.mkAxiosResponse (JObj []) res (Axios.Val JUndefined) in
  Axios.response_header r "Content-Type" = Some "text/plain" /\
  Axios.response_header r "CONTENT-TYPE" = Axios.response_header r "Content-Type".
Proof.
  intros res r.
  destruct (header_property_lookup r [("content-type", "text/plain")] "Content-Type")
    as [H1 H2].
  - reflexivity.
  - reflexivity.
  - reflexivity.
  - split; [exact H1|]. apply H2; reflexivity.
Defined.

Lemma download_progress_delivery_witness :
  let r := {| status := 200; statusText := "OK";
              headers := Some [("content-length", "10")];
              body := Some (Source [chunk_of 4; chunk_of 6]); ok := true;
              url := "http://host/items"; redirected := false; type := "basic" |} in
  exists r' s evs,
    streamResponse (fun _ => Some 10) r (JFun "report") = Normal r' /\
    wrapResponseWithProgress (fun _ => Some 10) r (JFun "report") = Normal r' /\
    body r' = Some s /\
    consume (fun i => Z.of_nat i + 1) s = Some ([chunk_of 4; chunk_of 6], evs) /\
    counts <$> evs.*2 = expected_counts 10 false 0 [4; 6].
Proof.
  intros r.
  destruct (download_progress_delivery (fun _ => Some 10) r (JFun "report")
              [chunk_of 4; chunk_of 6] (fun i => Z.of_nat i + 1) [("content-length", "10")])
    as [H _].
  - reflexivity.
  - reflexivity.
  - simpl. lia.
  - reflexivity.
  - intros i. lia.
  - destruct (H eq_refl) as (r' & s & evs & H1 & H2 & _ & _ & _ & H5 & H6 & _ & H8).
    exists r', s, evs. by repeat split.
Defined.

Lemma method_default_witness :
  exists d,
    Axios.dispatch Demo.call Demo.JSON_stringify Demo.xsrf Demo.resolve_url
      true true unit Demo.upload_request
      (JObj []) (JStr "/items/7") (JObj [("timeout", JNum 5)])
      JUndefined JUndefined JUndefined = Normal d /\
    Axios.d_method _ d = "GET".
Proof.
  eexists. split; [vm_compute; reflexivity|].
  refine (method_default Demo.call Demo.JSON_stringify Demo.xsrf Demo.resolve_url
            true true unit Demo.upload_request
            (JObj []) (JStr "/items/7") (JObj [("timeout", JNum 5)])
            JUndefined JUndefined _ _ _).
  - reflexivity.
  - reflexivity.
Defined.

(** ** The call as a whole *)

Section CallExtras.

Variable call : string -> list JValue -> JValue.
Variable JSON_stringify : JValue -> JValue.
Variable JSON_parse : string -> option JValue.
Variable xsrf : JValue -> Props -> Props.
Variable resolve_url : JValue -> JValue -> Completion JValue.
Variables has_Request has_ReadableStream : bool.
Variable Request : Type.
Variable upload_request : JValue -> Axios.FetchOptions -> JValue -> JValue -> option Request.
Variable Number : option string -> option Z.
Variable invoke : Response -> string -> option (Settled JValue JValue).
Variable fetchFunc :
  JValue -> Request + JValue * Axios.FetchOptions -> Settled Response JValue.

Local Abbreviation redaxios :=
  (Axios.redaxios call JSON_stringify JSON_parse xsrf resolve_url has_Request
     has_ReadableStream Request upload_request Number invoke fetchFunc).
Local Abbreviation assemble := (Axios.assemble JSON_parse has_ReadableStream Number invoke).
Local Abbreviation settle := (Axios.settle call JSON_parse has_ReadableStream Number invoke).


(** The client makes no success of its own: a call resolves only when the
    transport resolved, and then either the response type is ['stream'] or
    the status passed validation; the response carries the configuration of
    the call. *)
Theorem resolution_sound (options config : JValue) (t : Settled Response JValue)
    (response : Axios.AxiosResponse) :
  settle options config t = Resolved response ->
  exists res,
    t = Resolved res /\
    Axios.config response = config /\
    (assemble options config res = Axios.Streamed response /\
     is_str (prop options "responseType") "stream" = true
     \/ exists res1, assemble options config res = Axios.Ready res1 response /\
                     Axios.validate call options res1 = Normal true).
Proof.
  unfold Axios.settle. intros H.
  assert (forall e, Axios.catch_handler e <> Resolved response) as Hcatch.
  { intros e. unfold Axios.catch_handler. destruct (Axios.is_abort e); [done|].
    by destruct e as [[]|]. }
  destruct t as [res|e]; [|by apply Hcatch in H].
  exists res. split; [done|].
  destruct (Axios.then_handler _ _ _ _ _ options config res) as [r|e] eqn:Hthen;
    [|by apply Hcatch in H].
  injection H as ->. unfold Axios.then_handler in Hthen.
  destruct (assemble options config res) as [r|res1 r|e] eqn:Hasm; [| |done].
  - injection Hthen as ->. unfold Axios.assemble in Hasm.
    destruct (if (_ && _)%bool then _ else _) as [res'|]; [|done].
    destruct (is_str (prop options "responseType") "stream") eqn:Hs.
    + injection Hasm as <-. split; [done|]. by left.
    + destruct (jor _ _); try done. by destruct (invoke res' s).
  - unfold Axios.classify in Hthen.
    destruct (Axios.validate call options res1) as [[]|] eqn:Hv; try done.
    injection Hthen as ->. unfold Axios.assemble in Hasm.
    destruct (if (_ && _)%bool then _ else _) as [res'|]; [|done].
    destruct (is_str (prop options "responseType") "stream"); [done|].
    destruct (jor _ _); try done. destruct (invoke res' s); [|done].
    injection Hasm as <- <-. split; [done|]. right. by exists res'.
Qed.

End CallExtras.


Lemma resolution_sound_witness :
  let res := Demo.response_of 200 true in
  let response := Axios.mkAxiosResponse (JObj []) res (Axios.Val Demo.hello_world) in
  Axios.settle Demo.call Demo.JSON_parse true Demo.Number (Demo.invoke_text Demo.jsonExample)
    (JObj []) (JObj []) (Resolved res) = Resolved response /\
  exists res1,
    @Resolved Response JValue res = Resolved res1 /\
    Axios.config response = JObj [].
Proof.
  intros res response. split; [reflexivity|].
  destruct (resolution_sound Demo.call Demo.JSON_parse true Demo.Number
              (Demo.invoke_text Demo.jsonExample) (JObj []) (JObj []) (Resolved res) response)
    as (res1 & H1 & H2 & _).
  - reflexivity.
  - by exists res1.
Defined.
